(** * The watch filter of [staging/webpack.config.js]

    A shallow embedding of the stateful part of the webpack configuration
    script: the path filter [ignored] with its cache, the mirroring of linked
    package files ([maybeSync] and the listener it registers with
    [fs.watchFile]), the [FrontEndPlugin] hook and the
    [FilterIgnoringWatchFileSystem] wrapper.

    JavaScript strings are modelled by [string]; [indexOf], [slice] and
    [length] count characters on both sides, so the model is exact for paths
    whose characters are single code units. *)

From Stdlib Require Import ZArith Ascii String.
From stdpp Require Import gmap strings list fin_maps.

Local Open Scope Z_scope.

(** ** String primitives of JavaScript *)

Module Js.

(** [s.startsWith(needle)]. *)
Fixpoint startsWith (s needle : string) : bool :=
  match needle, s with
  | EmptyString, _ => true
  | String a needle', String b s' => if Ascii.eqb a b then startsWith s' needle' else false
  | String _ _, EmptyString => false
  end.

(** Position of the first occurrence of [needle] in [s], if any. *)
Fixpoint search (s needle : string) {struct s} : option nat :=
  if startsWith s needle then Some 0%nat
  else match s with
       | EmptyString => None
       | String _ s' => S <$> search s' needle
       end.

(** [s.indexOf(needle)]: the first position, or [-1]. *)
Definition indexOf (s needle : string) : Z :=
  match search s needle with
  | Some n => Z.of_nat n
  | None => -1
  end.

(** [s.slice(n)] for a non-negative [n]: [s] without its first [n]
    characters (empty when [n] exceeds the length). *)
Fixpoint slice (s : string) (n : nat) : string :=
  match n, s with
  | O, _ => s
  | S n', String _ s' => slice s' n'
  | S _, EmptyString => EmptyString
  end.

(** [s.split(c)] for a one-character separator. *)
Fixpoint split (c : ascii) (s : string) : list string :=
  match s with
  | EmptyString => [EmptyString]
  | String a s' =>
      if Ascii.eqb a c then EmptyString :: split c s'
      else match split c s' with
           | seg :: segs => String a seg :: segs
           | [] => [String a EmptyString]
           end
  end.

(** [segs.join(c)]. *)
Fixpoint join (c : ascii) (segs : list string) : string :=
  match segs with
  | [] => EmptyString
  | [seg] => seg
  | seg :: segs' => seg +:+ String c (join c segs')
  end.

End Js.

(** ** Results of calls that may throw, and the state they run in *)

Definition Error := string.

Inductive result (A : Type) : Type :=
| Ok (a : A)
| Throw (e : Error).
Arguments Ok {A} a.
Arguments Throw {A} e.

(** ** The [path] module

    The script uses [plib.sep], [plib.resolve] and [plib.join]; the record
    leaves the platform open. *)

Record PathLib := {
  sep : ascii;
  resolve : string → string;
  join : string → string → string
}.

(** The POSIX flavour of [path], relative to a working directory. *)
Module Posix.

(** The segment walk of [normalizeString]: empty segments and ["."] are
    dropped, [".."] removes the previous segment; above the start it is
    kept for a relative path and dropped for an absolute one. [acc] holds
    the segments kept so far, last one first. *)
Fixpoint normalizeSegs (allowAboveRoot : bool) (acc segs : list string) : list string :=
  match segs with
  | [] => rev acc
  | seg :: segs' =>
      if String.eqb seg "" || String.eqb seg "." then normalizeSegs allowAboveRoot acc segs'
      else if String.eqb seg ".." then
        match acc with
        | top :: acc' =>
            if String.eqb top ".." then normalizeSegs allowAboveRoot (seg :: acc) segs'
            else normalizeSegs allowAboveRoot acc' segs'
        | [] =>
            if allowAboveRoot then normalizeSegs allowAboveRoot [seg] segs'
            else normalizeSegs allowAboveRoot [] segs'
        end
      else normalizeSegs allowAboveRoot (seg :: acc) segs'
  end.

Definition isAbsolute (p : string) : bool := Js.startsWith p "/".

Definition endsWithSlash (p : string) : bool :=
  match rev (Js.split "/" p) with
  | last :: _ :: _ => String.eqb last ""
  | _ => false
  end.

(** [path.normalize(p)]. *)
Definition normalize (p : string) : string :=
  if String.eqb p "" then "."
  else
    let body := Js.join "/" (normalizeSegs (negb (isAbsolute p)) [] (Js.split "/" p)) in
    if String.eqb body "" then
      if isAbsolute p then "/" else if endsWithSlash p then "./" else "."
    else
      let body := if endsWithSlash p then body +:+ "/" else body in
      if isAbsolute p then "/" +:+ body else body.

(** [path.resolve(p)] in working directory [cwd] (an absolute path). *)
Definition resolve (cwd p : string) : string :=
  let full := if isAbsolute p then p else cwd +:+ "/" +:+ p in
  "/" +:+ Js.join "/" (normalizeSegs false [] (Js.split "/" full)).

(** [path.join(a, b)]: empty arguments are skipped. *)
Definition join (a b : string) : string :=
  if String.eqb a "" then normalize b
  else if String.eqb b "" then normalize a
  else normalize (a +:+ "/" +:+ b).

Definition plib (cwd : string) : PathLib :=
  Build_PathLib "/" (resolve cwd) join.

End Posix.

(** ** The file system

    An in-memory file system stands for the disk: a flat name space of
    absolute paths, where the members of a directory are the names that
    extend its own by a separator. A symbolic link holds a target path and is
    followed when it is the name asked for. There are no permissions, and a
    call that fails leaves the disk as it was. *)

Inductive Node : Type :=
| File (data : string)
| Dir
| Symlink (target : string).

(** The part of [fs.Stats] the script reads. *)
Record Stats := { isFile : bool; nlink : Z }.

(** The listener [maybeSync] hands to [fs.watchFile] is a closure over
    [source] and [localPath]; it is represented by the two captured values. *)
Record SyncListener := { source : string; localPath : string }.

(** Node keeps one [StatWatcher] per watched file name; later registrations
    for the same name add a listener and keep the first interval. *)
Record StatWatcher := { interval : Z; listeners : list SyncListener }.

(** The fields of a [FrontEndPlugin] object. [staticDir] is [None] when
    [jlab.staticDir] is undefined. *)
Record FrontEndPlugin := {
  buildDir : string;
  staticDir : option string;
  _first : bool
}.

(** [Map] objects live in a heap and are passed by reference. *)
Abbreviation loc := positive.
Abbreviation TimeMap := (gmap string Z).

(** Everything the script can read or change. *)
Record World := {
  disk : gmap string Node;
  ignoreCache : gmap string bool;
  statWatchers : gmap string StatWatcher;
  console : list Error;
  heap : gmap loc TimeMap;
  frontEnd : FrontEndPlugin
}.

Definition set_disk (d : gmap string Node) (w : World) : World :=
  {| disk := d; ignoreCache := ignoreCache w; statWatchers := statWatchers w;
     console := console w; heap := heap w; frontEnd := frontEnd w |}.
Definition set_ignoreCache (c : gmap string bool) (w : World) : World :=
  {| disk := disk w; ignoreCache := c; statWatchers := statWatchers w;
     console := console w; heap := heap w; frontEnd := frontEnd w |}.
Definition set_statWatchers (s : gmap string StatWatcher) (w : World) : World :=
  {| disk := disk w; ignoreCache := ignoreCache w; statWatchers := s;
     console := console w; heap := heap w; frontEnd := frontEnd w |}.
Definition set_console (c : list Error) (w : World) : World :=
  {| disk := disk w; ignoreCache := ignoreCache w; statWatchers := statWatchers w;
     console := c; heap := heap w; frontEnd := frontEnd w |}.
Definition set_heap (h : gmap loc TimeMap) (w : World) : World :=
  {| disk := disk w; ignoreCache := ignoreCache w; statWatchers := statWatchers w;
     console := console w; heap := h; frontEnd := frontEnd w |}.
Definition set_frontEnd (p : FrontEndPlugin) (w : World) : World :=
  {| disk := disk w; ignoreCache := ignoreCache w; statWatchers := statWatchers w;
     console := console w; heap := heap w; frontEnd := p |}.

(** ** Computations: a state monad over [World] in which a call may throw.
    The world survives a throw, as the side effects of JavaScript do. *)

Definition M (A : Type) : Type := World → result A * World.

Definition ret {A} (a : A) : M A := λ w, (Ok a, w).
Definition throw {A} (e : Error) : M A := λ w, (Throw e, w).
Definition bind {A B} (m : M A) (k : A → M B) : M B :=
  λ w, match m w with
       | (Ok a, w') => k a w'
       | (Throw e, w') => (Throw e, w')
       end.
(** [try { m } catch (err) { handler(err) }]. *)
Definition try_catch {A} (m : M A) (handler : Error → M A) : M A :=
  λ w, match m w with
       | (Ok a, w') => (Ok a, w')
       | (Throw e, w') => handler e w'
       end.
Definition get : M World := λ w, (Ok w, w).
Definition modify (f : World → World) : M unit := λ w, (Ok tt, f w).

Declare Scope js_scope.
Delimit Scope js_scope with js.
Notation "'let!' x ':=' m 'in' k" := (bind m (λ x, k))
  (at level 10, x name, m at level 100, k at level 200) : js_scope.
Notation "m ';;' k" := (bind m (λ _, k))
  (at level 100, k at level 200, right associativity) : js_scope.
Local Open Scope js_scope.

(** ** Configuration read at start-up *)

Class Config := {
  plib : PathLib;
  (** [jlab.watchedPackages]: package name to the path of its linked source. *)
  jlab_watchedPackages : gmap string string;
  (** The object [watched], as [Object.keys] lists it: package name and the
      directory of its local copy. *)
  watched : list (string * string)
}.

Section Script.
Context {cfg : Config}.

(** ** The calls into [fs] and [fs-extra]

    Every call resolves its path argument first, as the system does for a
    relative path. *)

(** [p] is [root] itself or a name below it. *)
Definition inTree (root p : string) : bool :=
  String.eqb p root || Js.startsWith p (root +:+ String (sep plib) "").

(** Follow the symbolic links at [p]; the system gives up after 40 hops. *)
Fixpoint follow (fuel : nat) (d : gmap string Node) (p : string) : result string :=
  match d !! p with
  | None => Throw "ENOENT"
  | Some (Symlink target) =>
      match fuel with
      | O => Throw "ELOOP"
      | S fuel' => follow fuel' d (resolve plib target)
      end
  | Some _ => Ok p
  end.

Definition realpath (d : gmap string Node) (p : string) : result string :=
  follow 40 d (resolve plib p).

(** [fs.realpathSync(p)]. *)
Definition realpathSync (p : string) : M string :=
  λ w, (realpath (disk w) p, w).

(** [fs.statSync(p)]: follows links, throws when nothing is there. *)
Definition statSync (p : string) : M Stats :=
  λ w, match realpath (disk w) p with
       | Throw e => (Throw e, w)
       | Ok q =>
           match disk w !! q with
           | Some (File _) => (Ok {| isFile := true; nlink := 1 |}, w)
           | Some _ => (Ok {| isFile := false; nlink := 1 |}, w)
           | None => (Throw "ENOENT", w)
           end
       end.

(** [fs.existsSync(p)]. *)
Definition existsSync (p : string) (w : World) : bool :=
  match realpath (disk w) p with
  | Ok _ => true
  | Throw _ => false
  end.

(** [fs.readFileSync(p)], used to observe contents. *)
Definition readFileSync (p : string) : M string :=
  λ w, match realpath (disk w) p with
       | Throw e => (Throw e, w)
       | Ok q =>
           match disk w !! q with
           | Some (File data) => (Ok data, w)
           | Some _ => (Throw "EISDIR", w)
           | None => (Throw "ENOENT", w)
           end
       end.

(** The tree at [t] is deleted. *)
Definition removeTree (t : string) (d : gmap string Node) : gmap string Node :=
  filter (λ kv, inTree t kv.1 = false) d.

(** [fs.removeSync(p)]: delete [p] and everything below it. *)
Definition removeSync (p : string) : M unit :=
  modify (λ w, set_disk (removeTree (resolve plib p) (disk w)) w).

(** The name under [t] that corresponds to [k] under [s]. *)
Definition reroot (s t k : string) : string :=
  t +:+ Js.slice k (String.length s).

(** Every entry of the tree at [s] is written at the corresponding name
    under [t]; other entries stay. *)
Definition copyTree (s t : string) (d : gmap string Node) : gmap string Node :=
  map_fold (λ k n acc, if inTree s k then <[reroot s t k := n]> acc else acc) d d.

Definition isDir (n : Node) : bool :=
  match n with Dir => true | _ => false end.

(** A directory would replace a non-directory, or the reverse. *)
Definition kindClash (s t : string) (d : gmap string Node) : bool :=
  map_fold (λ k n found,
              found || (inTree s k &&
                        match d !! reroot s t k with
                        | Some n' => negb (Bool.eqb (isDir n) (isDir n'))
                        | None => false
                        end)) false d.

(** [fs.copySync(src, dest)] with the default options: recursive, overwriting. *)
Definition copySync (src dest : string) : M unit :=
  λ w,
    let s := resolve plib src in
    let t := resolve plib dest in
    match disk w !! s with
    | None => (Throw "ENOENT", w)
    | Some _ =>
        if inTree s t then (Throw "EINVAL", w)
        else if kindClash s t (disk w) then (Throw "EISDIR", w)
        else (Ok tt, set_disk (copyTree s t (disk w)) w)
    end.

(** [console.error(err)]. *)
Definition console_error (err : Error) : M unit :=
  modify (λ w, set_console (console w ++ [err]) w).

(** [fs.watchFile(filename, { interval }, listener)]. *)
Definition watchFile (filename : string) (ms : Z) (listener : SyncListener) : M unit :=
  modify (λ w,
    let key := resolve plib filename in
    let entry :=
      match statWatchers w !! key with
      | None => {| interval := ms; listeners := [listener] |}
      | Some sw => {| interval := interval sw; listeners := listeners sw ++ [listener] |}
      end in
    set_statWatchers (<[key := entry]> (statWatchers w)) w).

(** ** [maybeSync] (lines 64-83) *)

(** The function passed to [fs.watchFile]; [curr] is the [Stats] the poll
    hands over ([None] for a missing argument). *)
Definition syncListener (l : SyncListener) (curr : option Stats) : M unit :=
  match curr with
  | None => ret tt
  | Some c =>
      if nlink c =? 0 then ret tt
      else try_catch (copySync (source l) (localPath l)) (λ err, console_error err)
  end.

(** [jlab.watchedPackages[name]] as an argument of [plib.join], which
    rejects [undefined]. *)
Definition linkedPath (name : string) : M string :=
  match jlab_watchedPackages !! name with
  | Some p => ret p
  | None => throw "TypeError"
  end.

Definition maybeSync (localPath name rest : string) : M unit :=
  let! stats := statSync localPath in
  if negb (isFile stats) then ret tt
  else
    let! linked := linkedPath name in
    let! source := realpathSync (join plib linked rest) in
    let! local := realpathSync localPath in
    if String.eqb source local then ret tt
    else watchFile source 500 {| source := source; localPath := localPath |}.

(** ** [ignored] (lines 89-113) *)

(** The walk of [Object.keys(watched).some(...)] over the roots still to
    visit; the result is the final value of [ignore], [true] unless a
    callback set it to [false]. *)
Fixpoint scanRoots (path : string) (roots : list (string * string)) : M bool :=
  match roots with
  | [] => ret true
  | (name, rootPath) :: roots' =>
      let contained := negb (Js.indexOf path (rootPath +:+ String (sep plib) "") =? -1) in
      if negb (String.eqb path rootPath) && negb contained then scanRoots path roots'
      else
        let rest := Js.slice path (String.length rootPath) in
        if Js.indexOf rest "node_modules" =? -1 then
          maybeSync path name rest;; ret false
        else ret true
  end.

Definition ignored (path : string) : M bool :=
  let path := resolve plib path in
  let! w := get in
  match ignoreCache w !! path with
  | Some cached => ret cached
  | None =>
      let! ignore := scanRoots path watched in
      modify (λ w, set_ignoreCache (<[path := ignore]> (ignoreCache w)) w);;
      ret ignore
  end.

(** ** [FrontEndPlugin] (lines 117-141) *)

(** [new FrontEndPlugin(buildDir, staticDir)]. *)
Definition newFrontEndPlugin (buildDir : string) (staticDir : option string) : FrontEndPlugin :=
  {| buildDir := buildDir; staticDir := staticDir; _first := true |}.

(** [staticDir] as a condition: [undefined] and the empty string are falsy. *)
Definition truthy (s : option string) : bool :=
  match s with
  | Some s => negb (String.eqb s "")
  | None => false
  end.

(** The function tapped on [compiler.hooks.afterEmit], run on the plugin
    object of the world. *)
Definition afterEmit : M unit :=
  let! w := get in
  let this := frontEnd w in
  match staticDir this with
  | None => ret tt
  | Some dir =>
      if negb (truthy (Some dir)) then ret tt
      else
        (if _first this && existsSync dir w then removeSync dir else ret tt);;
        modify (λ w, set_frontEnd {| buildDir := buildDir (frontEnd w);
                                     staticDir := staticDir (frontEnd w);
                                     _first := false |} w);;
        copySync (buildDir this) dir
  end.

(** ** [FilterIgnoringWatchFileSystem] (lines 143-212) *)

(** The arguments the wrapped watch system hands to its callback. [err] is
    [null] ([None]) or an error object; the timestamp maps are references. *)
Record CallbackArgs := {
  err : option Error;
  filesModified : list string;
  dirsModified : list string;
  missingModified : list string;
  fileTimestamps : loc;
  dirTimestamps : loc;
  removedFiles : list string
}.

(** The two ways the consumer's callback is called: [callback(err)] and
    [callback(err, filesModified, ..., removedFiles)]. *)
Inductive Invocation : Type :=
| Invoke1 (e : Error)
| Invoke7 (args : CallbackArgs).

Record WatchOptions := { poll : option Z; aggregateTimeout : option Z }.

(** A watcher handle: the object a watch system returns from [watch]. *)
Record Watcher := {
  close : M unit;
  pause : M unit;
  getContextTimestamps : M loc;
  getFileTimestamps : M loc
}.

(** A watch system: anything with a [watch] method. *)
Record WatchFileSystem := {
  wfs_watch :
    list string → list string → list string → Z → WatchOptions →
    (CallbackArgs → M unit) → (string → Z → M unit) → M Watcher
}.

Record FilterIgnoringWatchFileSystem := {
  this_wfs : WatchFileSystem;
  this_ignored : string → M bool
}.

(** [m.set(key, v)] on the [Map] at reference [m]; a reference the heap
    does not hold yet denotes an empty [Map]. *)
Definition mapSet (m : loc) (key : string) (v : Z) : M unit :=
  modify (λ w, set_heap (<[m := <[key := v]> (default ∅ (heap w !! m))]> (heap w)) w).

(** [for (const x of l) body(x)]. *)
Fixpoint forOf {A} (l : list A) (body : A → M unit) : M unit :=
  match l with
  | [] => ret tt
  | x :: l' => body x;; forOf l' body
  end.

(** [l.filter(f)] for a callback with effects. *)
Fixpoint filterM (f : string → M bool) (l : list string) : M (list string) :=
  match l with
  | [] => ret []
  | x :: l' =>
      let! keep := f x in
      let! kept := filterM f l' in
      ret (if keep then x :: kept else kept)
  end.

(** The arrow function passed to the wrapped [watch] (lines 162-189). *)
Definition wrapCallback (ignoredFiles ignoredDirs : list string)
    (callback : Invocation → M unit) (a : CallbackArgs) : M unit :=
  match err a with
  | Some e => callback (Invoke1 e)
  | None =>
      forOf ignoredFiles (λ path, mapSet (fileTimestamps a) path 1);;
      forOf ignoredDirs (λ path, mapSet (dirTimestamps a) path 1);;
      callback (Invoke7 a)
  end.

(** The object returned by [watch] (lines 193-210). *)
Definition wrapWatcher (ignoredFiles ignoredDirs : list string) (watcher : Watcher) : Watcher :=
  {| close := close watcher;
     pause := pause watcher;
     getContextTimestamps :=
       (let! dirTimestamps := getContextTimestamps watcher in
        forOf ignoredDirs (λ path, mapSet dirTimestamps path 1);;
        ret dirTimestamps);
     getFileTimestamps :=
       (let! fileTimestamps := getFileTimestamps watcher in
        forOf ignoredFiles (λ path, mapSet fileTimestamps path 1);;
        ret fileTimestamps) |}.

Definition watch (this : FilterIgnoringWatchFileSystem)
    (files dirs missing : list string) (startTime : Z) (options : WatchOptions)
    (callback : Invocation → M unit) (callbackUndelayed : string → Z → M unit) : M Watcher :=
  let notIgnored := λ path, let! b := this_ignored this path in ret (negb b) in
  let! ignoredFiles := filterM ignored files in
  let! ignoredDirs := filterM ignored dirs in
  let! watchedFiles := filterM notIgnored files in
  let! watchedDirs := filterM notIgnored dirs in
  let! watcher :=
    wfs_watch (this_wfs this) watchedFiles watchedDirs missing startTime options
      (wrapCallback ignoredFiles ignoredDirs callback) callbackUndelayed in
  ret (wrapWatcher ignoredFiles ignoredDirs watcher).

(** [FilterWatchIgnorePlugin]: the hook on [afterEnvironment] wraps the
    compiler's watch system with the filter given to the plugin. *)
Definition filterWatchIgnorePlugin (filter : string → M bool) (watchFileSystem : WatchFileSystem)
  : FilterIgnoringWatchFileSystem :=
  {| this_wfs := watchFileSystem; this_ignored := filter |}.

(** ** Notions used to state the properties *)

(** The test of lines 100-101: [path] counts as inside [rootPath]. *)
Definition matchesRoot (path rootPath : string) : bool :=
  String.eqb path rootPath
  || negb (Js.indexOf path (rootPath +:+ String (sep plib) "") =? -1).

(** The root at which [some] stops. *)
Definition firstMatch (path : string) (roots : list (string * string)) : option (string * string) :=
  List.find (λ root, matchesRoot path root.2) roots.

(** The value [ignore] has when the walk over the roots ends normally. *)
Definition classify (path : string) : bool :=
  match firstMatch path watched with
  | None => true
  | Some (_, rootPath) =>
      negb (Js.indexOf (Js.slice path (String.length rootPath)) "node_modules" =? -1)
  end.

(** Every cached answer is the one the walk computes. The empty cache the
    script starts with has the property and [ignored] keeps it. *)
Definition cache_ok (w : World) : Prop :=
  ∀ p b, ignoreCache w !! p = Some b → classify p = b.

(** [n] calls of [ignored] in a row; a caller that survives a throw goes on. *)
Fixpoint callsN (n : nat) (path : string) (w : World) : list (result bool) * World :=
  match n with
  | O => ([], w)
  | S n' =>
      let '(r, w') := ignored path w in
      let '(rs, w'') := callsN n' path w' in
      (r :: rs, w'')
  end.

(** The number of polling timers. *)
Definition timerCount (w : World) : nat := size (statWatchers w).

(** The [Map] behind a reference. *)
Definition timeMapAt (w : World) (m : loc) : TimeMap := default ∅ (heap w !! m).

(** What follows the root in a name of its tree: nothing, or a separator
    and more. *)
Definition suffixOk (r : string) : Prop :=
  r = "" ∨ ∃ x, r = String (sep plib) x.

(** [w'] is [w] after [m.set(path, 1)] for every [path] of [paths]: only the
    [Map] at [m] differs, and only at those keys. *)
Definition overlaid (paths : list string) (m : loc) (w w' : World) : Prop :=
  (∃ h, w' = set_heap h w)
  ∧ (∀ p, timeMapAt w' m !! p = if bool_decide (p ∈ paths) then Some 1 else timeMapAt w m !! p)
  ∧ (∀ m', m' ≠ m → heap w' !! m' = heap w !! m').

(** *** The specification's wording, for comparison *)

(** "Outside every registered root": [path] equals no root and is not
    nested under any root followed by the separator. *)
Definition spec_outsideEveryRoot (path : string) : bool :=
  forallb (λ root : string * string, negb (inTree root.2 path)) watched.

(** "The suffix contains a path segment equal to the marker". *)
Definition spec_hasSegment (marker rest : string) : bool :=
  bool_decide (marker ∈ Js.split (sep plib) rest).

End Script.


(** ** A concrete installation

    One watched package [A], installed at [/src/A] and linked from
    [/linked/A]; the working directory is [/src/staging]. *)

Module Scenario.

Definition config : Config :=
  {| plib := Posix.plib "/src/staging";
     jlab_watchedPackages := {[ "A" := "/linked/A" ]};
     watched := [("A", "/src/A")] |}.

Definition boot (d : gmap string Node) (plugin : FrontEndPlugin) : World :=
  {| disk := d; ignoreCache := ∅; statWatchers := ∅; console := [];
     heap := ∅; frontEnd := plugin |}.

Definition noPublish : FrontEndPlugin := newFrontEndPlugin "/src/staging/build" None.

(** The local copy differs from the linked source. *)
Definition diskCopied : gmap string Node :=
  {[ "/src/A" := Dir; "/src/A/lib" := Dir; "/src/A/lib/x.js" := File "old";
     "/linked/A" := Dir; "/linked/A/lib" := Dir; "/linked/A/lib/x.js" := File "new";
     "/backup/src/A/lib" := Dir ]}.

(** The local file is a symbolic link to the linked source. *)
Definition diskLinked : gmap string Node :=
  {[ "/src/A" := Dir; "/src/A/lib" := Dir;
     "/src/A/lib/x.js" := Symlink "/linked/A/lib/x.js";
     "/linked/A" := Dir; "/linked/A/lib" := Dir; "/linked/A/lib/x.js" := File "new" ]}.

(** The linked source has not been built yet. *)
Definition diskUnbuilt : gmap string Node :=
  {[ "/src/A" := Dir; "/src/A/lib" := Dir; "/src/A/lib/x.js" := File "old";
     "/linked/A" := Dir ]}.

(** A consumer that notes on the console how it was called. *)
Definition noteCallback (call : Invocation) : M unit :=
  match call with
  | Invoke1 e => console_error ("callback(err): " +:+ e)
  | Invoke7 _ => console_error "callback(err, filesModified, ...)"
  end.

(** A watch system whose handle reports the maps at references 1 and 2. *)
Definition plainWatcher : Watcher :=
  {| close := ret tt; pause := ret tt;
     getContextTimestamps := ret 2%positive;
     getFileTimestamps := ret 1%positive |}.

Definition plainWfs : WatchFileSystem :=
  {| wfs_watch := λ _ _ _ _ _ _ _, ret plainWatcher |}.

(** Publishing: the build directory holds [a.js]; the static directory
    exists and holds [old.txt] from an earlier run. *)
Definition publish : FrontEndPlugin :=
  newFrontEndPlugin "/src/staging/build" (Some "/srv/static").

Definition diskBuilt : gmap string Node :=
  {[ "/src/staging/build" := Dir; "/src/staging/build/a.js" := File "bundle";
     "/srv/static" := Dir; "/srv/static/old.txt" := File "stale" ]}.

(** The script has just started; the local copy differs from its source. *)
Definition fresh : World := boot diskCopied noPublish.

(** An error report of the wrapped watch system, and a change report. *)
Definition failed : CallbackArgs :=
  {| err := Some "EMFILE"; filesModified := ["/src/A/lib/x.js"]; dirsModified := [];
     missingModified := []; fileTimestamps := 1%positive; dirTimestamps := 2%positive;
     removedFiles := [] |}.

Definition changed : CallbackArgs :=
  {| err := None; filesModified := ["/src/A/lib/x.js"]; dirsModified := [];
     missingModified := []; fileTimestamps := 1%positive; dirTimestamps := 1%positive;
     removedFiles := [] |}.

Definition regular : Stats := {| isFile := true; nlink := 1 |}.

(** As [fresh], after a directory was made at [/src/A/lib/gone.js]. *)
Definition goneCreated : World :=
  boot (<["/src/A/lib/gone.js" := Dir]> diskCopied) noPublish.

(** After a tick that failed on [diskUnbuilt], the linked source gets built. *)
Definition afterFailedTick : World := set_console ["ENOENT"] (boot diskUnbuilt noPublish).

Definition builtLater : World :=
  set_disk (<["/linked/A/lib/x.js" := File "built"]> diskUnbuilt) afterFailedTick.

Definition listenerX : SyncListener :=
  {| source := "/linked/A/lib/x.js"; localPath := "/src/A/lib/x.js" |}.

End Scenario.

(** ** Start-up (lines 23-28 and 52-59) *)

Section StartUp.
Context {cfg : Config}.



(** The property names of [Object.prototype], which every object literal
    inherits. *)
Definition objectPrototypeKeys : list string :=
  ["constructor"; "__defineGetter__"; "__defineSetter__"; "hasOwnProperty";
   "__lookupGetter__"; "__lookupSetter__"; "isPrototypeOf"; "propertyIsEnumerable";
   "toString"; "valueOf"; "__proto__"; "toLocaleString"].

(** [name in watched], for [watched] created as [{}] and holding [entries]:
    own and inherited properties count. *)
Definition inWatched (name : string) (entries : list (string * string)) : bool :=
  bool_decide (name ∈ entries.*1) || bool_decide (name ∈ objectPrototypeKeys).

(** Lines 55-59: the loop over [Object.keys(jlab.watchedPackages)], given as
    [names] in that order. [requireResolve] stands for [require.resolve] and
    [dirname] for [plib.dirname]. The entries are listed in insertion order,
    which is the order of [Object.keys(watched)] because [names] already is
    in key order. *)
Fixpoint initWatched (requireResolve : string → result string) (dirname : string → string)
    (names : list string) (entries : list (string * string))
  : result (list (string * string)) :=
  match names with
  | [] => Ok entries
  | name :: names' =>
      if inWatched name entries then initWatched requireResolve dirname names' entries
      else
        match requireResolve (join plib name "package.json") with
        | Throw e => Throw e
        | Ok localPkgPath =>
            initWatched requireResolve dirname names'
              (entries ++ [(name, dirname localPkgPath)])
        end
  end.

End StartUp.

(** ** More concrete inputs *)

Module Bench.

(** [plib.dirname] on POSIX paths without a trailing separator. *)
Definition dirname (p : string) : string :=
  match rev (Js.split "/" p) with
  | _ :: (_ :: _) as front =>
      let dir := Js.join "/" (rev front) in
      if String.eqb dir "" then "/" else dir
  | _ => "."
  end.

(** A module resolution that knows the packages [A] and [B]. *)
Definition requireResolve (request : string) : result string :=
  if String.eqb request "A/package.json" then Ok "/src/A/package.json"
  else if String.eqb request "B/package.json" then Ok "/src/B/package.json"
  else Throw "MODULE_NOT_FOUND".

(** Two roots, one nested in the other's [node_modules]. *)
Definition nested : Config :=
  {| plib := Posix.plib "/src/staging";
     jlab_watchedPackages := {[ "A" := "/linked/A"; "B" := "/linked/B" ]};
     watched := [("B", "/src/A/node_modules/B"); ("A", "/src/A")] |}.

(** The local file of [A] has no counterpart among the linked sources. *)
Definition diskOrphan : gmap string Node :=
  {[ "/src/A" := Dir; "/src/A/lib" := Dir; "/src/A/lib/x.js" := File "old";
     "/src/A/lib/only.js" := File "local"; "/linked/A" := Dir; "/linked/A/lib" := Dir;
     "/linked/A/lib/x.js" := File "new" ]}.


(** [Scenario.fresh] after [/opt/lib/y.js] was classified. *)
Definition seen : World := (@ignored Scenario.config "/opt/lib/y.js" Scenario.fresh).2.

(** [Scenario.fresh] after [/src/A/lib/x.js] was classified. *)
Definition mirrored : World := (@ignored Scenario.config "/src/A/lib/x.js" Scenario.fresh).2.

Definition orphaned : World := Scenario.boot diskOrphan Scenario.noPublish.

(** The static directory is there, the build directory is not. *)
Definition unbuilt : World :=
  Scenario.boot {[ "/srv/static" := Dir; "/srv/static/old.txt" := File "stale" ]}
    Scenario.publish.

Definition published : World := Scenario.boot Scenario.diskBuilt Scenario.publish.


End Bench.

(** * Properties *)

(** ** Strings *)

Lemma ascii_eqb_refl (a : ascii) : Ascii.eqb a a = true.
Proof. by apply Ascii.eqb_eq. Qed.

Lemma string_app_nil_l (r : string) : "" +:+ r = r.
Proof. reflexivity. Qed.

Lemma string_app_cons (a : ascii) (p r : string) : String a p +:+ r = String a (p +:+ r).
Proof. reflexivity. Qed.

Ltac sapp := rewrite ?string_app_nil_l, ?string_app_cons in *.

Lemma startsWith_app (p r : string) : Js.startsWith (p +:+ r) p = true.
Proof.
  induction p as [|a p IH]; sapp; simpl; [by destruct r|].
  by rewrite ascii_eqb_refl.
Qed.

Lemma startsWith_inv (s p : string) :
  Js.startsWith s p = true → s = p +:+ Js.slice s (String.length p).
Proof.
  revert s. induction p as [|a p IH]; intros s H; sapp; simpl in *.
  - by destruct s.
  - destruct s as [|b s]; simpl in H; [done|].
    destruct (Ascii.eqb a b) eqn:E; [|done].
    apply Ascii.eqb_eq in E as ->. f_equal. by apply IH.
Qed.

Lemma slice_app (p r : string) : Js.slice (p +:+ r) (String.length p) = r.
Proof. induction p as [|a p IH]; sapp; simpl; [by destruct r|done]. Qed.

Lemma slice_0 (s : string) : Js.slice s 0 = s.
Proof. by destruct s. Qed.

Lemma string_app_nil_r (s : string) : s +:+ "" = s.
Proof. induction s; sapp; [done|]. by f_equal. Qed.

Lemma string_app_assoc (a b c : string) : (a +:+ b) +:+ c = a +:+ b +:+ c.
Proof. induction a; sapp; [done|]. by f_equal. Qed.

Lemma string_app_length (a b : string) :
  String.length (a +:+ b) = (String.length a + String.length b)%nat.
Proof. induction a; sapp; simpl; [done|]. by f_equal. Qed.

Lemma search_here (s needle : string) :
  Js.startsWith s needle = true → Js.search s needle = Some 0%nat.
Proof. intros H. destruct s; cbn [Js.search]; by rewrite H. Qed.

(** An occurrence anywhere is found by [indexOf]. *)
Lemma search_occurrence (a needle b : string) :
  is_Some (Js.search (a +:+ needle +:+ b) needle).
Proof.
  induction a as [|c a IH]; sapp.
  - rewrite search_here; [eauto|apply startsWith_app].
  - cbn [Js.search]. destruct (Js.startsWith _ _); [eauto|].
    destruct IH as [n ->]. simpl. eauto.
Qed.

Lemma indexOf_occurrence (a needle b : string) :
  Js.indexOf (a +:+ needle +:+ b) needle ≠ -1.
Proof.
  unfold Js.indexOf. destruct (search_occurrence a needle b) as [n ->]. lia.
Qed.

Lemma search_Some (s needle : string) (n : nat) :
  Js.search s needle = Some n →
  ∃ a b, s = a +:+ needle +:+ b ∧ String.length a = n.
Proof.
  revert n. induction s as [|c s IH]; intros n; cbn [Js.search].
  - destruct (Js.startsWith "" needle) eqn:E; [|done].
    intros [= <-]. exists "", (Js.slice "" (String.length needle)).
    split; [|done]. sapp. by apply startsWith_inv.
  - destruct (Js.startsWith (String c s) needle) eqn:E.
    + intros [= <-]. exists "", (Js.slice (String c s) (String.length needle)).
      split; [|done]. sapp. by apply startsWith_inv.
    + destruct (Js.search s needle) as [m|] eqn:Es; [|done].
      intros [= <-]. destruct (IH m eq_refl) as (a & b & -> & Hlen).
      exists (String c a), b. sapp. simpl. by rewrite Hlen.
Qed.

(** ** The POSIX paths at work *)

Example posix_resolve_absolute :
  Posix.resolve "/src/staging" "/src/A/./lib//x.js" = "/src/A/lib/x.js".
Proof. reflexivity. Qed.

Example posix_resolve_relative : Posix.resolve "/src/staging" "../static/" = "/src/static".
Proof. reflexivity. Qed.

Example posix_join_relative :
  Posix.join "../packages/a" "/lib/x.js" = "../packages/a/lib/x.js".
Proof. reflexivity. Qed.

Example posix_join_above : Posix.join "a/b" "../../../c/" = "../c/".
Proof. reflexivity. Qed.

Example indexOf_inner : Js.indexOf "/backup/src/A/lib" "/src/A/" = 7.
Proof. reflexivity. Qed.

Example indexOf_absent : Js.indexOf "/src/A" "/src/A/" = -1.
Proof. reflexivity. Qed.

Example slice_past_end : Js.slice "/a" 5 = "".
Proof. reflexivity. Qed.

(** ** Running a computation *)

Lemma bind_run {A B} (m : M A) (k : A → M B) (w : World) :
  bind m k w =
    match m w with
    | (Ok a, w') => k a w'
    | (Throw e, w') => (Throw e, w')
    end.
Proof. reflexivity. Qed.

(** ** Trees of names *)

Section Facts.
Context {cfg : Config}.

Lemma inTree_iff (t k : string) :
  inTree t k = true ↔ ∃ r, k = t +:+ r ∧ suffixOk r.
Proof.
  unfold inTree. split.
  - intros [H|H]%orb_true_iff.
    + apply String.eqb_eq in H as ->. exists "". rewrite string_app_nil_r.
      split; [done|by left].
    + apply startsWith_inv in H. rewrite string_app_assoc in H. sapp.
      eexists. split; [exact H|]. right. eauto.
  - intros (r & -> & [->|[x ->]]).
    + rewrite string_app_nil_r, String.eqb_refl. done.
    + apply orb_true_iff. right.
      replace (t +:+ String (sep plib) x) with ((t +:+ String (sep plib) "") +:+ x).
      * apply startsWith_app.
      * rewrite string_app_assoc. by sapp.
Qed.

Lemma inTree_self (t : string) : inTree t t = true.
Proof. unfold inTree. by rewrite String.eqb_refl. Qed.

Lemma inTree_slice (t k : string) :
  inTree t k = true → k = t +:+ Js.slice k (String.length t) ∧ suffixOk (Js.slice k (String.length t)).
Proof.
  intros (r & -> & Hr)%inTree_iff. by rewrite slice_app.
Qed.

Lemma inTree_reroot (s t k : string) :
  inTree s k = true → inTree t (reroot s t k) = true.
Proof.
  intros [_ Hr]%inTree_slice. apply inTree_iff. by exists (Js.slice k (String.length s)).
Qed.

Lemma reroot_reroot (s t k : string) :
  inTree s k = true → reroot t s (reroot s t k) = k.
Proof.
  intros [Hk _]%inTree_slice. unfold reroot. rewrite slice_app. by rewrite <- Hk.
Qed.

Lemma reroot_inj (s t k1 k2 : string) :
  inTree s k1 = true → inTree s k2 = true →
  reroot s t k1 = reroot s t k2 → k1 = k2.
Proof.
  intros H1 H2 E. rewrite <- (reroot_reroot s t k1), <- (reroot_reroot s t k2) by done.
  by rewrite E.
Qed.

(** Two trees that share a name are nested. *)
Lemma string_app_eq_app (a b c d : string) :
  a +:+ b = c +:+ d →
  (∃ x, c = a +:+ x ∧ b = x +:+ d) ∨ (∃ x, a = c +:+ x ∧ d = x +:+ b).
Proof.
  revert c. induction a as [|h a IH]; intros c E; sapp.
  - left. by exists c.
  - destruct c as [|h' c]; sapp.
    + right. by exists (String h a).
    + injection E as -> E. destruct (IH _ E) as [(x & -> & ->)|(x & -> & ->)].
      * left. by exists x.
      * right. by exists x.
Qed.

Lemma inTree_overlap (a b k : string) :
  inTree a k = true → inTree b k = true →
  inTree a b = true ∨ inTree b a = true.
Proof.
  intros (r & -> & Hr)%inTree_iff (r' & E & Hr')%inTree_iff.
  destruct (string_app_eq_app _ _ _ _ E) as [(x & -> & ->)|(x & -> & ->)].
  - left. apply inTree_iff. exists x. split; [done|].
    destruct x as [|c x]; [by left|]. right.
    destruct Hr as [Hr|[y Hr]]; sapp; [done|]. injection Hr as -> _. eauto.
  - right. apply inTree_iff. exists x. split; [done|].
    destruct x as [|c x]; [by left|]. right.
    destruct Hr' as [Hr'|[y Hr']]; sapp; [done|]. injection Hr' as -> _. eauto.
Qed.

(** ** The disk operations *)

Lemma removeTree_lookup (t k : string) (d : gmap string Node) :
  removeTree t d !! k = if inTree t k then None else d !! k.
Proof.
  unfold removeTree. destruct (inTree t k) eqn:E.
  - apply map_lookup_filter_None. right. intros x _. simpl. congruence.
  - destruct (d !! k) as [n|] eqn:Hk.
    + by apply map_lookup_filter_Some.
    + apply map_lookup_filter_None. by left.
Qed.

Lemma copyTree_lookup (s t k : string) (d : gmap string Node) :
  copyTree s t d !! k =
    if inTree t k then
      match d !! reroot t s k with
      | Some n => Some n
      | None => d !! k
      end
    else d !! k.
Proof.
  unfold copyTree.
  set (f := λ (k0 : string) (n : Node) (acc : gmap string Node),
              if inTree s k0 then <[reroot s t k0 := n]> acc else acc).
  enough (∀ m : gmap string Node,
            map_fold f d m !! k =
              if inTree t k then
                match m !! reroot t s k with
                | Some n => Some n
                | None => d !! k
                end
              else d !! k) as H by apply H.
  intros m. revert k.
  apply (map_fold_weak_ind (λ (acc m0 : gmap string Node), ∀ k,
           acc !! k = if inTree t k then
                        match m0 !! reroot t s k with
                        | Some n => Some n
                        | None => d !! k
                        end
                      else d !! k)).
  - intros k. rewrite lookup_empty. by destruct (inTree t k).
  - intros i x m' acc Hi IH k. unfold f at 1.
    destruct (inTree s i) eqn:Hsi.
    + destruct (decide (reroot s t i = k)) as [<-|Hne].
      * rewrite lookup_insert_eq, inTree_reroot, reroot_reroot by done.
        by rewrite lookup_insert_eq.
      * rewrite lookup_insert_ne by done. rewrite IH.
        destruct (inTree t k) eqn:Htk; [|done].
        rewrite lookup_insert_ne; [done|].
        intros ->. apply Hne. by apply reroot_reroot.
    + rewrite IH. destruct (inTree t k) eqn:Htk; [|done].
      rewrite lookup_insert_ne; [done|].
      intros ->. rewrite inTree_reroot in Hsi; done.
Qed.

(** ** [maybeSync] *)

Lemma statSync_world (p : string) (w : World) : (statSync p w).2 = w.
Proof.
  unfold statSync. destruct (realpath (disk w) p); [|done].
  by destruct (disk w !! a) as [[]|].
Qed.

(** The calls of [maybeSync] in order, with the outcome of each. *)
Lemma maybeSync_unfold (lp name rest : string) (w : World) :
  maybeSync lp name rest w =
    match (statSync lp w).1 with
    | Throw e => (Throw e, w)
    | Ok stats =>
        if negb (isFile stats) then (Ok tt, w)
        else match jlab_watchedPackages !! name with
             | None => (Throw "TypeError", w)
             | Some linked =>
                 match realpath (disk w) (join plib linked rest) with
                 | Throw e => (Throw e, w)
                 | Ok src =>
                     match realpath (disk w) lp with
                     | Throw e => (Throw e, w)
                     | Ok loc =>
                         if String.eqb src loc then (Ok tt, w)
                         else watchFile src 500 {| source := src; localPath := lp |} w
                     end
                 end
             end
    end.
Proof.
  unfold maybeSync, bind. pose proof (statSync_world lp w) as Hw.
  destruct (statSync lp w) as [[stats|e] w1]; simpl in *; subst w1; [|done].
  destruct (isFile stats); simpl; [|done].
  unfold linkedPath. destruct (jlab_watchedPackages !! name) as [linked|]; [|done].
  unfold ret, realpathSync. simpl.
  destruct (realpath (disk w) (join plib linked rest)) as [src|e]; [|done].
  destruct (realpath (disk w) lp) as [loc|e]; [|done].
  by destruct (String.eqb src loc).
Qed.

(** [maybeSync] changes nothing but the registry of polling timers, and
    nothing at all when it throws. *)
Lemma maybeSync_frame (lp name rest : string) (w : World) :
  let '(r, w') := maybeSync lp name rest w in
  (w' = w ∨ ∃ src, r = Ok tt ∧ w' = (watchFile src 500 {| source := src; localPath := lp |} w).2)
  ∧ (∀ e, r = Throw e → w' = w).
Proof.
  rewrite maybeSync_unfold.
  destruct (statSync lp w).1 as [stats|e]; [|by split; [left|]].
  destruct (negb (isFile stats)); [by split; [left|]|].
  destruct (jlab_watchedPackages !! name) as [linked|]; [|by split; [left|]].
  destruct (realpath _ (join _ _ _)) as [src|e]; [|by split; [left|]].
  destruct (realpath _ lp) as [loc|e]; [|by split; [left|]].
  destruct (String.eqb src loc); [by split; [left|]|].
  unfold watchFile, modify. simpl. split; [|done]. right. by exists src.
Qed.

Lemma maybeSync_cache (lp name rest : string) (w : World) :
  ignoreCache (maybeSync lp name rest w).2 = ignoreCache w.
Proof.
  pose proof (maybeSync_frame lp name rest w) as H.
  destruct (maybeSync lp name rest w) as [r w']. simpl.
  destruct H as [[->|(src & _ & ->)] _]; done.
Qed.

(** ** [ignored] *)

Lemma scanRoots_unfold (path : string) (roots : list (string * string)) (w : World) :
  scanRoots path roots w =
    match firstMatch path roots with
    | None => (Ok true, w)
    | Some (name, rootPath) =>
        let rest := Js.slice path (String.length rootPath) in
        if Js.indexOf rest "node_modules" =? -1 then
          match maybeSync path name rest w with
          | (Ok _, w') => (Ok false, w')
          | (Throw e, w') => (Throw e, w')
          end
        else (Ok true, w)
    end.
Proof.
  induction roots as [|[name rootPath] roots IH]; [done|].
  cbn [scanRoots firstMatch List.find]. unfold matchesRoot at 1. cbn [snd].
  set (here := String.eqb path rootPath).
  set (contained := Js.indexOf path (rootPath +:+ String (sep plib) "") =? -1).
  set (free := Js.indexOf (Js.slice path (String.length rootPath)) "node_modules" =? -1).
  assert (∀ w, (if free then maybeSync path name (Js.slice path (String.length rootPath));; ret false
                else ret true) w =
               if free then
                 match maybeSync path name (Js.slice path (String.length rootPath)) w with
                 | (Ok _, w') => (Ok false, w')
                 | (Throw e, w') => (Throw e, w')
                 end
               else (Ok true, w)) as Hbody.
  { intros w1. destruct free; [|reflexivity]. unfold bind.
    destruct (maybeSync _ _ _ _) as [[]]; reflexivity. }
  destruct here, contained; simpl; auto.
Qed.

Lemma ignored_unfold (p : string) (w : World) :
  ignored p w =
    match ignoreCache w !! resolve plib p with
    | Some cached => (Ok cached, w)
    | None =>
        match scanRoots (resolve plib p) watched w with
        | (Ok ignore, w') =>
            (Ok ignore, set_ignoreCache (<[resolve plib p := ignore]> (ignoreCache w')) w')
        | (Throw e, w') => (Throw e, w')
        end
    end.
Proof.
  unfold ignored, bind, get. simpl.
  destruct (ignoreCache w !! resolve plib p); [done|].
  by destruct (scanRoots _ _ _) as [[]].
Qed.

(** The result of the walk is [classify], whatever the disk holds. *)
Lemma scanRoots_classify (path : string) (w : World) :
  let '(r, w') := scanRoots path watched w in
  ignoreCache w' = ignoreCache w
  ∧ match r with
    | Ok b => b = classify path
    | Throw _ => w' = w
    end.
Proof.
  rewrite scanRoots_unfold. unfold classify.
  destruct (firstMatch path watched) as [[name rootPath]|]; [|done].
  simpl. destruct (_ =? -1) eqn:E; [|done].
  pose proof (maybeSync_frame path name (Js.slice path (String.length rootPath)) w) as H.
  pose proof (maybeSync_cache path name (Js.slice path (String.length rootPath)) w) as Hc.
  destruct (maybeSync _ _ _ _) as [[[]|e] w']; simpl in *; [done|].
  destruct H as [_ H]. by rewrite (H e eq_refl).
Qed.

(** A call of [ignored] either throws and leaves the world as it was, or
    returns [classify] and has the answer cached. *)
Lemma ignored_outcome (p : string) (w : World) :
  cache_ok w →
  let '(r, w') := ignored p w in
  match r with
  | Ok b =>
      b = classify (resolve plib p)
      ∧ ignoreCache w' !! resolve plib p = Some b
      ∧ cache_ok w'
      ∧ (∀ q c, ignoreCache w !! q = Some c → ignoreCache w' !! q = Some c)
  | Throw _ => w' = w
  end.
Proof.
  intros Hok. rewrite ignored_unfold.
  destruct (ignoreCache w !! resolve plib p) as [cached|] eqn:Hc.
  - repeat split; auto. symmetry. by apply Hok.
  - pose proof (scanRoots_classify (resolve plib p) w) as H.
    destruct (scanRoots _ _ _) as [[b|e] w']; destruct H as [Hcache H]; [|done].
    subst b. simpl. rewrite Hcache. repeat split.
    + by rewrite lookup_insert_eq.
    + intros q c. simpl.
      destruct (decide (resolve plib p = q)) as [<-|Hne].
      * rewrite lookup_insert_eq. by intros [= <-].
      * rewrite lookup_insert_ne by done. apply Hok.
    + intros q c Hq. destruct (decide (resolve plib p = q)) as [<-|Hne]; [congruence|].
      by rewrite lookup_insert_ne.
Qed.

(** ** The mirror of linked files *)

(** C5 (as the code has it). [maybeSync] returns without doing anything
    when [localPath] exists and is not a regular file, a directory for
    instance. When nothing exists at [localPath], [fs.statSync] throws and the
    error leaves [maybeSync]. Either way no polling timer is created. *)
Theorem maybeSync_not_a_file (lp name rest : string) (w : World) :
  (∀ stats, (statSync lp w).1 = Ok stats → isFile stats = false →
     maybeSync lp name rest w = (Ok tt, w))
  ∧ (∀ e, (statSync lp w).1 = Throw e →
     maybeSync lp name rest w = (Throw e, w)).
Proof.
  split.
  - intros stats Hs Hf. rewrite maybeSync_unfold, Hs, Hf. done.
  - intros e Hs. rewrite maybeSync_unfold, Hs. done.
Qed.

(** C8. For a regular file at [localPath] whose canonical path is the
    canonical path of its linked source, [maybeSync] returns and the world,
    the registry of polling timers included, is as before. *)
Theorem maybeSync_same_file_no_task (lp name rest linked canon : string)
    (stats : Stats) (w : World) :
  (statSync lp w).1 = Ok stats →
  isFile stats = true →
  jlab_watchedPackages !! name = Some linked →
  realpath (disk w) (join plib linked rest) = Ok canon →
  realpath (disk w) lp = Ok canon →
  maybeSync lp name rest w = (Ok tt, w)
  ∧ timerCount (maybeSync lp name rest w).2 = timerCount w.
Proof.
  intros Hs Hf Hl Hsrc Hloc.
  assert (maybeSync lp name rest w = (Ok tt, w)) as E.
  { rewrite maybeSync_unfold, Hs, Hf, Hl, Hsrc, Hloc. simpl.
    by rewrite String.eqb_refl. }
  by rewrite E.
Qed.

Lemma copySync_outcome (src dest : string) (w : World) :
  match copySync src dest w with
  | (Ok _, w') =>
      w' = set_disk (copyTree (resolve plib src) (resolve plib dest) (disk w)) w
      ∧ is_Some (disk w !! resolve plib src)
      ∧ inTree (resolve plib src) (resolve plib dest) = false
  | (Throw _, w') => w' = w
  end.
Proof.
  unfold copySync. destruct (disk w !! resolve plib src) eqn:E; [|done].
  destruct (inTree _ _); [done|]. destruct (kindClash _ _ _); [done|].
  eauto.
Qed.

Lemma slice_all (t : string) : Js.slice t (String.length t) = "".
Proof. rewrite <- (string_app_nil_r t) at 1. apply slice_app. Qed.

Lemma reroot_root (s t : string) : reroot s t s = t.
Proof. unfold reroot. by rewrite slice_all, string_app_nil_r. Qed.

(** A successful copy of a regular file leaves exactly its data at the
    destination. *)
Lemma copySync_file (src dest data : string) (w w' : World) :
  copySync src dest w = (Ok tt, w') →
  disk w !! resolve plib src = Some (File data) →
  disk w' !! resolve plib dest = Some (File data)
  ∧ (readFileSync dest w').1 = Ok data.
Proof.
  intros Hc Hsrc. pose proof (copySync_outcome src dest w) as H.
  rewrite Hc in H. destruct H as (-> & _ & _).
  assert (copyTree (resolve plib src) (resolve plib dest) (disk w) !! resolve plib dest
          = Some (File data)) as Hd.
  { by rewrite copyTree_lookup, inTree_self, reroot_root, Hsrc. }
  split; [exact Hd|].
  unfold readFileSync, realpath. simpl. unfold follow. by rewrite Hd, Hd.
Qed.

(** C9. A tick of the polling timer never throws and never touches the
    registry of timers. With no [Stats] or a link count of zero it does
    nothing. Otherwise it calls [fs.copySync(source, localPath)]: on success
    the data of the source file is what [localPath] holds afterwards; on
    failure the error goes to [console.error] and the tick returns. *)
Theorem syncListener_tick (l : SyncListener) (curr : option Stats) (w : World) :
  (∃ w', syncListener l curr w = (Ok tt, w') ∧ statWatchers w' = statWatchers w)
  ∧ ((curr = None ∨ ∃ c, curr = Some c ∧ nlink c = 0) →
     syncListener l curr w = (Ok tt, w))
  ∧ (∀ c, curr = Some c → nlink c ≠ 0 →
     match copySync (source l) (localPath l) w with
     | (Ok _, w') =>
         syncListener l curr w = (Ok tt, w')
         ∧ console w' = console w
         ∧ ∀ data, disk w !! resolve plib (source l) = Some (File data) →
             disk w' !! resolve plib (localPath l) = Some (File data)
             ∧ (readFileSync (localPath l) w').1 = Ok data
     | (Throw e, w') =>
         w' = w ∧ syncListener l curr w = (Ok tt, set_console (console w ++ [e]) w)
     end).
Proof.
  assert (∀ c, nlink c ≠ 0 →
            syncListener l (Some c) w =
              match copySync (source l) (localPath l) w with
              | (Ok _, w') => (Ok tt, w')
              | (Throw e, w') => (Ok tt, set_console (console w' ++ [e]) w')
              end) as Hrun.
  { intros c Hc. unfold syncListener. apply Z.eqb_neq in Hc as ->.
    unfold try_catch. by destruct (copySync _ _ _) as [[[]|e] w']. }
  pose proof (copySync_outcome (source l) (localPath l) w) as Hout.
  split; [|split].
  - destruct curr as [c|]; [|by exists w].
    destruct (decide (nlink c = 0)) as [E|E].
    + exists w. unfold syncListener. by rewrite E.
    + rewrite (Hrun c E). destruct (copySync _ _ _) as [[[]|e] w'].
      * destruct Hout as (-> & _). eauto.
      * subst w'. eauto.
  - intros [->|(c & -> & E)]; [done|]. unfold syncListener. by rewrite E.
  - intros c -> E. rewrite (Hrun c E).
    destruct (copySync _ _ _) as [[[]|e] w'] eqn:Hc.
    + split; [done|]. split; [by destruct Hout as (-> & _)|].
      intros data Hd. by eapply copySync_file.
    + by subst w'.
Qed.

(** C10. When [maybeSync] throws during a classification that is not yet
    cached, the error leaves [ignored] and the world is as before: nothing is
    recorded for the path. A later call with the same cache walks the roots
    and calls [maybeSync] again, and caches [false] once that returns. *)
Theorem ignored_throw_leaves_cache (path name rootPath : string) (e : Error) (w : World) :
  ignoreCache w !! resolve plib path = None →
  firstMatch (resolve plib path) watched = Some (name, rootPath) →
  Js.indexOf (Js.slice (resolve plib path) (String.length rootPath)) "node_modules" = -1 →
  (maybeSync (resolve plib path) name
     (Js.slice (resolve plib path) (String.length rootPath)) w).1 = Throw e →
  ignored path w = (Throw e, w)
  ∧ ∀ w2, ignoreCache w2 = ignoreCache w →
      ignored path w2 =
        match maybeSync (resolve plib path) name
                (Js.slice (resolve plib path) (String.length rootPath)) w2 with
        | (Ok _, w3) =>
            (Ok false, set_ignoreCache (<[resolve plib path := false]> (ignoreCache w2)) w3)
        | (Throw e2, w3) => (Throw e2, w2)
        end.
Proof.
  intros Hmiss Hroot Hfree Hthrow.
  assert (∀ w2, ignoreCache w2 = ignoreCache w →
            ignored path w2 =
              match maybeSync (resolve plib path) name
                      (Js.slice (resolve plib path) (String.length rootPath)) w2 with
              | (Ok _, w3) =>
                  (Ok false, set_ignoreCache (<[resolve plib path := false]> (ignoreCache w2)) w3)
              | (Throw e2, w3) => (Throw e2, w2)
              end) as Hcall.
  { intros w2 Hc. rewrite ignored_unfold, Hc, Hmiss, scanRoots_unfold, Hroot.
    simpl. apply Z.eqb_eq in Hfree as ->.
    pose proof (maybeSync_frame (resolve plib path) name
                  (Js.slice (resolve plib path) (String.length rootPath)) w2) as Hf.
    pose proof (maybeSync_cache (resolve plib path) name
                  (Js.slice (resolve plib path) (String.length rootPath)) w2) as Hk.
    destruct (maybeSync _ _ _ w2) as [[[]|e2] w3]; simpl in *.
    - by rewrite Hk, Hc.
    - destruct Hf as [_ Hf]. by rewrite (Hf e2 eq_refl). }
  split; [|exact Hcall].
  rewrite (Hcall w eq_refl).
  destruct (maybeSync _ _ _ w) as [[[]|e2] w3]; simpl in *; congruence.
Qed.

(** ** The classification *)

Lemma split_head (c : ascii) (s seg : string) (segs : list string) :
  Js.split c s = seg :: segs → ∃ y, s = seg +:+ y.
Proof.
  revert seg segs. induction s as [|a s IH]; intros seg segs; simpl.
  - intros [= <- <-]. by exists "".
  - destruct (Ascii.eqb a c).
    + intros [= <- <-]. by exists (String a s).
    + destruct (Js.split c s) as [|seg' segs'] eqn:E.
      * intros [= <- <-]. by exists s.
      * intros [= <- <-]. destruct (IH _ _ eq_refl) as [y ->]. by exists y.
Qed.

(** A segment of a string occurs in it. *)
Lemma split_occurrence (c : ascii) (s marker : string) :
  marker ∈ Js.split c s → ∃ a b, s = a +:+ marker +:+ b.
Proof.
  induction s as [|h s IH]; simpl.
  - intros ->%list_elem_of_singleton. by exists "", "".
  - assert (marker ∈ Js.split c s → ∃ a b, String h s = a +:+ marker +:+ b) as Hrest.
    { intros (a & b & ->)%IH. by exists (String h a), b. }
    destruct (Ascii.eqb h c).
    + intros [->|H]%elem_of_cons; [by exists "", (String h s)|auto].
    + destruct (Js.split c s) as [|seg segs] eqn:E.
      * intros ->%list_elem_of_singleton. by exists "", s.
      * intros [->|H]%elem_of_cons.
        -- destruct (split_head _ _ _ _ E) as [y ->]. by exists "", y.
        -- apply Hrest. by right.
Qed.

Lemma hasSegment_indexOf (marker rest : string) :
  spec_hasSegment marker rest = true → Js.indexOf rest marker ≠ -1.
Proof.
  unfold spec_hasSegment. intros H%bool_decide_eq_true.
  destruct (split_occurrence _ _ _ H) as (a & b & ->). apply indexOf_occurrence.
Qed.

(** A path in the tree of a root passes the test of lines 100-101. *)
Lemma inTree_matchesRoot (rootPath path : string) :
  inTree rootPath path = true → matchesRoot path rootPath = true.
Proof.
  unfold inTree, matchesRoot. intros [H|H]%orb_true_iff; apply orb_true_iff; [by left|right].
  apply startsWith_inv in H. rewrite H. apply negb_true_iff, Z.eqb_neq.
  apply (indexOf_occurrence "").
Qed.

Lemma contained_firstMatch (name rootPath path : string) :
  (name, rootPath) ∈ watched → inTree rootPath path = true →
  is_Some (firstMatch path watched).
Proof.
  intros Hin Htree. unfold firstMatch.
  destruct (List.find _ watched) eqn:E; [eauto|].
  apply list_elem_of_In in Hin.
  pose proof (List.find_none _ _ E _ Hin) as H. simpl in H.
  by rewrite inTree_matchesRoot in H.
Qed.

(** C2 (as the code has it). Let the path lie in the tree of a root (it
    equals [rootPath] or starts with [rootPath + sep]), let the walk over
    [Object.keys(watched)] stop at that root, and let [rest] be the path
    without its first [rootPath.length] characters. If the text
    [node_modules] occurs in [rest], as it does when a segment of [rest]
    equals it, [ignored] returns [true]. If it does not occur, [ignored]
    returns [false], unless the answer is not cached yet and [maybeSync]
    throws: then [ignored] throws. *)
Theorem ignored_first_matching_root (path name rootPath : string) (w : World) :
  cache_ok w →
  inTree rootPath (resolve plib path) = true →
  firstMatch (resolve plib path) watched = Some (name, rootPath) →
  let rest := Js.slice (resolve plib path) (String.length rootPath) in
  (Js.indexOf rest "node_modules" ≠ -1 → (ignored path w).1 = Ok true)
  ∧ (spec_hasSegment "node_modules" rest = true → (ignored path w).1 = Ok true)
  ∧ (Js.indexOf rest "node_modules" = -1 →
     (ignored path w).1 = Ok false
     ∨ ∃ e, ignoreCache w !! resolve plib path = None
            ∧ (maybeSync (resolve plib path) name rest w).1 = Throw e
            ∧ ignored path w = (Throw e, w)).
Proof.
  intros Hok _ Hroot rest.
  assert (Js.indexOf rest "node_modules" ≠ -1 → (ignored path w).1 = Ok true) as Hocc.
  { intros Hnm. rewrite ignored_unfold.
    destruct (ignoreCache w !! resolve plib path) as [cached|] eqn:Hc.
    - apply Hok in Hc. unfold classify in Hc. rewrite Hroot in Hc. fold rest in Hc.
      apply Z.eqb_neq in Hnm. rewrite Hnm in Hc. by subst cached.
    - rewrite scanRoots_unfold, Hroot. simpl. fold rest.
      apply Z.eqb_neq in Hnm. by rewrite Hnm. }
  split; [exact Hocc|]. split.
  - intros Hseg. by apply Hocc, hasSegment_indexOf.
  - intros Hfree. rewrite ignored_unfold.
    destruct (ignoreCache w !! resolve plib path) as [cached|] eqn:Hc.
    + left. apply Hok in Hc. unfold classify in Hc. rewrite Hroot in Hc. fold rest in Hc.
      rewrite Hfree in Hc. by subst cached.
    + rewrite scanRoots_unfold, Hroot. simpl. fold rest. rewrite Hfree. simpl.
      pose proof (maybeSync_frame (resolve plib path) name rest w) as Hf.
      destruct (maybeSync _ _ _ w) as [[[]|e] w']; simpl; [by left|].
      right. exists e. destruct Hf as [_ Hf]. by rewrite (Hf e eq_refl).
Qed.

(** What a call of [ignored] can change besides the cache: at most one
    registration with [fs.watchFile]. *)
Lemma ignored_frame (path : string) (w : World) :
  let '(r, w') := ignored path w in
  (∀ e, r = Throw e → w' = w)
  ∧ (∀ b, r = Ok b → ignoreCache w' !! resolve plib path = Some b)
  ∧ (statWatchers w' = statWatchers w
     ∨ ∃ src, statWatchers w' =
              statWatchers (watchFile src 500
                 {| source := src; localPath := resolve plib path |} w).2).
Proof.
  rewrite ignored_unfold.
  destruct (ignoreCache w !! resolve plib path) as [cached|] eqn:Hc.
  { split; [done|]. split; [by intros b [= <-]|by left]. }
  rewrite scanRoots_unfold.
  destruct (firstMatch _ _) as [[name rootPath]|].
  2: { simpl. split; [done|]. split; [|by left].
       intros b [= <-]. by rewrite lookup_insert_eq. }
  simpl. destruct (_ =? -1).
  2: { simpl. split; [done|]. split; [|by left].
       intros b [= <-]. by rewrite lookup_insert_eq. }
  pose proof (maybeSync_frame (resolve plib path) name
                (Js.slice (resolve plib path) (String.length rootPath)) w) as Hf.
  destruct (maybeSync _ _ _ w) as [[[]|e] w']; simpl.
  - split; [done|]. split; [intros b [= <-]; by rewrite lookup_insert_eq|].
    destruct Hf as [[->|(src & _ & ->)] _]; [by left|right; by exists src].
  - destruct Hf as [_ Hf]. rewrite (Hf e eq_refl). split; [done|]. split; [done|by left].
Qed.

Lemma ignored_cached (path : string) (b : bool) (w : World) :
  ignoreCache w !! resolve plib path = Some b → ignored path w = (Ok b, w).
Proof. intros H. by rewrite ignored_unfold, H. Qed.

Lemma callsN_cached (n : nat) (path : string) (b : bool) (w : World) :
  ignoreCache w !! resolve plib path = Some b →
  callsN n path w = (replicate n (Ok b), w).
Proof.
  intros H. induction n as [|n IH]; [done|].
  cbn [callsN]. by rewrite (ignored_cached _ _ _ H), IH.
Qed.

(** C4. Once a call of [ignored] has returned, every later call for the
    same path returns the same answer from the cache and changes nothing.
    Any number of calls in a row registers at most one listener with
    [fs.watchFile]; for a regular file that differs from its linked source
    they register exactly one, at the first call. *)
Theorem ignored_idempotent (path : string) :
  (∀ w b w1, ignored path w = (Ok b, w1) →
     ∀ n, callsN n path w1 = (replicate n (Ok b), w1))
  ∧ (∀ n w,
       statWatchers (callsN n path w).2 = statWatchers w
       ∨ ∃ src, statWatchers (callsN n path w).2 =
                statWatchers (watchFile src 500
                   {| source := src; localPath := resolve plib path |} w).2)
  ∧ (∀ w name rootPath stats linked src loc,
       ignoreCache w !! resolve plib path = None →
       firstMatch (resolve plib path) watched = Some (name, rootPath) →
       Js.indexOf (Js.slice (resolve plib path) (String.length rootPath)) "node_modules" = -1 →
       (statSync (resolve plib path) w).1 = Ok stats →
       isFile stats = true →
       jlab_watchedPackages !! name = Some linked →
       realpath (disk w)
         (join plib linked (Js.slice (resolve plib path) (String.length rootPath))) = Ok src →
       realpath (disk w) (resolve plib path) = Ok loc →
       src ≠ loc →
       ∀ n, let registered :=
              (watchFile src 500 {| source := src; localPath := resolve plib path |} w).2 in
            callsN (S n) path w =
              (replicate (S n) (Ok false),
               set_ignoreCache (<[resolve plib path := false]> (ignoreCache w)) registered)).
Proof.
  split; [|split].
  - intros w b w1 H n. apply callsN_cached.
    pose proof (ignored_frame path w) as Hf. rewrite H in Hf.
    destruct Hf as (_ & Hf & _). by apply Hf.
  - intros n. induction n as [|n IH]; intros w; [by left|].
    cbn [callsN]. pose proof (ignored_frame path w) as Hf.
    destruct (ignored path w) as [[b|e] w1].
    + destruct Hf as (_ & Hb & Hreg).
      rewrite (callsN_cached n path b w1 (Hb b eq_refl)). exact Hreg.
    + destruct Hf as (Hw & _). rewrite (Hw e eq_refl).
      specialize (IH w). by destruct (callsN n path w).
  - intros w name rootPath stats linked src loc Hmiss Hroot Hfree Hs Hfile Hl Hsrc Hloc Hne n registered.
    assert (ignored path w =
              (Ok false, set_ignoreCache (<[resolve plib path := false]> (ignoreCache w)) registered))
      as Hfirst.
    { rewrite ignored_unfold, Hmiss, scanRoots_unfold, Hroot. simpl.
      apply Z.eqb_eq in Hfree as ->.
      rewrite maybeSync_unfold, Hs, Hfile, Hl, Hsrc, Hloc. simpl.
      apply String.eqb_neq in Hne as ->. reflexivity. }
    cbn [callsN]. rewrite Hfirst.
    rewrite (callsN_cached n path false); [done|].
    simpl. by rewrite lookup_insert_eq.
Qed.

(** ** The watch wrapper *)

Lemma timeMapAt_mapSet (m m' : loc) (key : string) (v : Z) (w : World) :
  timeMapAt (mapSet m key v w).2 m' =
    if decide (m = m') then <[key := v]> (timeMapAt w m) else timeMapAt w m'.
Proof.
  unfold timeMapAt, mapSet, modify. simpl. destruct (decide (m = m')) as [<-|Hne].
  - by rewrite lookup_insert_eq.
  - by rewrite lookup_insert_ne.
Qed.

(** The loop [for (const path of paths) map.set(path, 1)]. *)
Lemma forOf_mapSet (paths : list string) (m : loc) (w : World) :
  ∃ w', forOf paths (λ path, mapSet m path 1) w = (Ok tt, w') ∧ overlaid paths m w w'.
Proof.
  revert w. induction paths as [|x paths IH]; intros w.
  - exists w. split; [done|]. split; [|split]; [|done..].
    exists (heap w). by destruct w.
  - destruct (IH (mapSet m x 1 w).2) as (w' & Hrun & (h & Hh) & Hmap & Hother).
    exists w'. split.
    { cbn [forOf]. unfold bind. simpl. exact Hrun. }
    split; [|split].
    + exists h. rewrite Hh. by destruct w.
    + intros p. rewrite Hmap, timeMapAt_mapSet. rewrite decide_True by done.
      destruct (decide (p = x)) as [->|Hne].
      * rewrite lookup_insert_eq. rewrite (bool_decide_eq_true_2 (x ∈ x :: paths)) by left.
        by destruct (bool_decide _).
      * rewrite lookup_insert_ne by done.
        destruct (bool_decide (p ∈ paths)) eqn:E.
        -- apply bool_decide_eq_true in E.
           rewrite bool_decide_eq_true_2; [done|by right].
        -- apply bool_decide_eq_false in E.
           rewrite bool_decide_eq_false_2; [done|].
           by intros [?|?]%elem_of_cons.
    + intros m' Hne. rewrite Hother by done. unfold mapSet, modify. simpl.
      by rewrite lookup_insert_ne.
Qed.

Lemma overlaid_timeMapAt_other (paths : list string) (m m' : loc) (w w' : World) :
  overlaid paths m w w' → m' ≠ m → timeMapAt w' m' = timeMapAt w m'.
Proof. intros (_ & _ & H) Hne. unfold timeMapAt. by rewrite H. Qed.

(** Filtering with [ignored] keeps the paths that [classify] marks, and
    leaves each path of the list cached. *)
Lemma filterM_ignored (l : list string) (w : World) :
  cache_ok w →
  let '(r, w') := filterM ignored l w in
  match r with
  | Ok kept =>
      kept = List.filter (λ p, classify (resolve plib p)) l
      ∧ cache_ok w'
      ∧ (∀ q c, ignoreCache w !! q = Some c → ignoreCache w' !! q = Some c)
      ∧ (∀ p, p ∈ l → ignoreCache w' !! resolve plib p = Some (classify (resolve plib p)))
  | Throw _ => True
  end.
Proof.
  revert w. induction l as [|x l IH]; intros w Hok.
  - simpl. repeat split; auto. intros p Hp. by apply elem_of_nil in Hp.
  - cbn [filterM]. unfold bind at 1.
    pose proof (ignored_outcome x w Hok) as Hx.
    destruct (ignored x w) as [[b|e] w1]; [|done].
    destruct Hx as (-> & Hcx & Hok1 & Hmono1).
    unfold bind at 1. specialize (IH w1 Hok1).
    destruct (filterM ignored l w1) as [[kept|e] w2]; [|done].
    destruct IH as (-> & Hok2 & Hmono2 & Hall). simpl.
    repeat split; auto.
    intros p [->|Hp]%elem_of_cons; auto.
Qed.

(** Filtering a second time answers from the cache. *)
Lemma filterM_notIgnored (l : list string) (w : World) :
  (∀ p, p ∈ l → ignoreCache w !! resolve plib p = Some (classify (resolve plib p))) →
  filterM (λ path, let! b := ignored path in ret (negb b)) l w =
    (Ok (List.filter (λ p, negb (classify (resolve plib p))) l), w).
Proof.
  induction l as [|x l IH]; intros Hall; [done|].
  cbn [filterM]. unfold bind at 1. unfold bind at 1.
  rewrite (ignored_cached x _ w (Hall x ltac:(left))).
  unfold ret at 1. unfold bind at 1. rewrite IH.
  - simpl. by destruct (classify (resolve plib x)).
  - intros p Hp. apply Hall. by right.
Qed.

Lemma elem_of_filter_classify (l : list string) (p : string) :
  p ∈ List.filter (λ p, classify (resolve plib p)) l ↔
  p ∈ l ∧ classify (resolve plib p) = true.
Proof. rewrite !list_elem_of_In, List.filter_In. reflexivity. Qed.

(** The overlay of both loops, as the consumer sees the maps. *)
Lemma wrapCallback_overlay (files dirs : list string)
    (callback : Invocation → M unit) (a : CallbackArgs) (w : World) :
  let ignoredFiles := List.filter (λ p, classify (resolve plib p)) files in
  let ignoredDirs := List.filter (λ p, classify (resolve plib p)) dirs in
  err a = None →
  ∃ w', wrapCallback ignoredFiles ignoredDirs callback a w = callback (Invoke7 a) w'
    ∧ (∃ h, w' = set_heap h w)
    ∧ (∀ p, p ∈ files → classify (resolve plib p) = true →
         timeMapAt w' (fileTimestamps a) !! p = Some 1)
    ∧ (∀ p, p ∈ dirs → classify (resolve plib p) = true →
         timeMapAt w' (dirTimestamps a) !! p = Some 1)
    ∧ (∀ p, classify (resolve plib p) = false →
         timeMapAt w' (fileTimestamps a) !! p = timeMapAt w (fileTimestamps a) !! p
         ∧ timeMapAt w' (dirTimestamps a) !! p = timeMapAt w (dirTimestamps a) !! p)
    ∧ (∀ m, m ≠ fileTimestamps a → m ≠ dirTimestamps a → heap w' !! m = heap w !! m).
Proof.
  intros ignoredFiles ignoredDirs Herr.
  destruct (forOf_mapSet ignoredFiles (fileTimestamps a) w)
    as (w1 & Hrun1 & (h1 & Hh1) & Hmap1 & Hother1).
  destruct (forOf_mapSet ignoredDirs (dirTimestamps a) w1)
    as (w2 & Hrun2 & (h2 & Hh2) & Hmap2 & Hother2).
  assert (∀ p, p ∉ ignoredFiles → p ∉ ignoredDirs →
            ∀ m, timeMapAt w2 m !! p = timeMapAt w m !! p) as Hkeep.
  { intros p HpF HpD m.
    transitivity (timeMapAt w1 m !! p).
    - destruct (decide (m = dirTimestamps a)) as [->|Hne].
      + by rewrite Hmap2, bool_decide_eq_false_2.
      + unfold timeMapAt. by rewrite Hother2.
    - destruct (decide (m = fileTimestamps a)) as [->|Hne].
      + by rewrite Hmap1, bool_decide_eq_false_2.
      + unfold timeMapAt. by rewrite Hother1. }
  exists w2. split; [|split; [|split; [|split; [|split]]]].
  - unfold wrapCallback. rewrite Herr. unfold bind. by rewrite Hrun1, Hrun2.
  - exists h2. rewrite Hh2, Hh1. by destruct w.
  - intros p Hp Hc.
    assert (p ∈ ignoredFiles) as HpF by by apply elem_of_filter_classify.
    destruct (decide (fileTimestamps a = dirTimestamps a)) as [E|Hne].
    + rewrite E, Hmap2. destruct (bool_decide (p ∈ ignoredDirs)); [done|].
      by rewrite <- E, Hmap1, bool_decide_eq_true_2.
    + unfold timeMapAt at 1. rewrite Hother2 by done. fold (timeMapAt w1 (fileTimestamps a)).
      by rewrite Hmap1, bool_decide_eq_true_2.
  - intros p Hp Hc.
    assert (p ∈ ignoredDirs) as HpD by by apply elem_of_filter_classify.
    by rewrite Hmap2, bool_decide_eq_true_2.
  - intros p Hc.
    assert (p ∉ ignoredFiles) as HpF.
    { intros [_ H]%elem_of_filter_classify. congruence. }
    assert (p ∉ ignoredDirs) as HpD.
    { intros [_ H]%elem_of_filter_classify. congruence. }
    split; by apply Hkeep.
  - intros m HmF HmD. by rewrite Hother2, Hother1.
Qed.

Lemma wrapWatcher_overlay (paths : list string) (m : loc) (v1 : World) :
  ∃ v2, (forOf paths (λ path, mapSet m path 1);; ret m) v1 = (Ok m, v2)
    ∧ overlaid paths m v1 v2.
Proof.
  destruct (forOf_mapSet paths m v1) as (v2 & Hrun & Hov).
  exists v2. split; [|done]. unfold bind. by rewrite Hrun.
Qed.

(** C3. [watch] hands the wrapped watch system the paths that are not
    ignored, a wrapped callback and returns a wrapped handle. When the wrapped
    callback is called without an error, the consumer is called with the same
    arguments after the maps were overlaid: the value is [1] at every ignored
    path of [files] (in the file map) and of [dirs] (in the directory map), and
    at a path that is not ignored both maps hold what the wrapped system put
    there. Every call of [getFileTimestamps] and [getContextTimestamps] on the
    handle calls the wrapped handle and overlays what it returned in the same
    way. *)
Theorem watch_overlays_ignored (wfs : WatchFileSystem) (files dirs missing : list string)
    (startTime : Z) (options : WatchOptions) (callback : Invocation → M unit)
    (callbackUndelayed : string → Z → M unit) (w : World) :
  cache_ok w →
  let this := filterWatchIgnorePlugin ignored wfs in
  let isIgnored := λ p, classify (resolve plib p) in
  let ignoredFiles := List.filter isIgnored files in
  let ignoredDirs := List.filter isIgnored dirs in
  let run := watch this files dirs missing startTime options callback callbackUndelayed w in
  match filterM ignored files w with
  | (Throw e, w1) => run = (Throw e, w1)
  | (Ok _, w1) =>
      match filterM ignored dirs w1 with
      | (Throw e, w2) => run = (Throw e, w2)
      | (Ok _, w2) =>
          run =
            match wfs_watch wfs
                    (List.filter (λ p, negb (isIgnored p)) files)
                    (List.filter (λ p, negb (isIgnored p)) dirs)
                    missing startTime options
                    (wrapCallback ignoredFiles ignoredDirs callback)
                    callbackUndelayed w2 with
            | (Ok watcher, w3) => (Ok (wrapWatcher ignoredFiles ignoredDirs watcher), w3)
            | (Throw e, w3) => (Throw e, w3)
            end
      end
  end
  ∧ (∀ a v, err a = None →
       ∃ v', wrapCallback ignoredFiles ignoredDirs callback a v = callback (Invoke7 a) v'
         ∧ (∃ h, v' = set_heap h v)
         ∧ (∀ p, p ∈ files → isIgnored p = true →
              timeMapAt v' (fileTimestamps a) !! p = Some 1)
         ∧ (∀ p, p ∈ dirs → isIgnored p = true →
              timeMapAt v' (dirTimestamps a) !! p = Some 1)
         ∧ (∀ p, isIgnored p = false →
              timeMapAt v' (fileTimestamps a) !! p = timeMapAt v (fileTimestamps a) !! p
              ∧ timeMapAt v' (dirTimestamps a) !! p = timeMapAt v (dirTimestamps a) !! p)
         ∧ (∀ m, m ≠ fileTimestamps a → m ≠ dirTimestamps a → heap v' !! m = heap v !! m))
  ∧ (∀ watcher v,
       match getFileTimestamps watcher v with
       | (Ok m, v1) =>
           ∃ v2, getFileTimestamps (wrapWatcher ignoredFiles ignoredDirs watcher) v = (Ok m, v2)
             ∧ (∃ h, v2 = set_heap h v1)
             ∧ (∀ p, p ∈ files → isIgnored p = true → timeMapAt v2 m !! p = Some 1)
             ∧ (∀ p, ¬ (p ∈ files ∧ isIgnored p = true) →
                  timeMapAt v2 m !! p = timeMapAt v1 m !! p)
             ∧ (∀ m', m' ≠ m → heap v2 !! m' = heap v1 !! m')
       | (Throw e, v1) =>
           getFileTimestamps (wrapWatcher ignoredFiles ignoredDirs watcher) v = (Throw e, v1)
       end)
  ∧ (∀ watcher v,
       match getContextTimestamps watcher v with
       | (Ok m, v1) =>
           ∃ v2, getContextTimestamps (wrapWatcher ignoredFiles ignoredDirs watcher) v = (Ok m, v2)
             ∧ (∃ h, v2 = set_heap h v1)
             ∧ (∀ p, p ∈ dirs → isIgnored p = true → timeMapAt v2 m !! p = Some 1)
             ∧ (∀ p, ¬ (p ∈ dirs ∧ isIgnored p = true) →
                  timeMapAt v2 m !! p = timeMapAt v1 m !! p)
             ∧ (∀ m', m' ≠ m → heap v2 !! m' = heap v1 !! m')
       | (Throw e, v1) =>
           getContextTimestamps (wrapWatcher ignoredFiles ignoredDirs watcher) v = (Throw e, v1)
       end).
Proof.
  intros Hok this isIgnored ignoredFiles ignoredDirs run.
  split; [|split; [|split]].
  - subst run. unfold watch. rewrite bind_run.
    pose proof (filterM_ignored files w Hok) as H1.
    destruct (filterM ignored files w) as [[keptF|e] w1]; [|reflexivity].
    destruct H1 as (-> & Hok1 & _ & Hall1).
    rewrite bind_run. pose proof (filterM_ignored dirs w1 Hok1) as H2.
    destruct (filterM ignored dirs w1) as [[keptD|e] w2]; [|reflexivity].
    destruct H2 as (-> & Hok2 & Hmono2 & Hall2).
    rewrite bind_run. cbn [this_ignored this filterWatchIgnorePlugin].
    rewrite filterM_notIgnored by (intros p Hp; by apply Hmono2, Hall1).
    rewrite bind_run, filterM_notIgnored by done.
    rewrite bind_run. cbn [this_wfs].
    destruct (wfs_watch _ _ _ _ _ _ _ _ _) as [[watcher|e] w3]; reflexivity.
  - intros a v Herr. by apply wrapCallback_overlay.
  - intros watcher v. cbn [getFileTimestamps wrapWatcher]. rewrite bind_run.
    destruct (getFileTimestamps watcher v) as [[m|e] v1]; [|reflexivity].
    destruct (wrapWatcher_overlay ignoredFiles m v1) as (v2 & Hrun & Hh & Hmap & Hother).
    exists v2. split; [exact Hrun|]. split; [exact Hh|]. split; [|split; [|exact Hother]].
    + intros p Hp Hc. rewrite Hmap, bool_decide_eq_true_2; [done|].
      by apply elem_of_filter_classify.
    + intros p Hp. rewrite Hmap, bool_decide_eq_false_2; [done|].
      by intros ?%elem_of_filter_classify.
  - intros watcher v. cbn [getContextTimestamps wrapWatcher]. rewrite bind_run.
    destruct (getContextTimestamps watcher v) as [[m|e] v1]; [|reflexivity].
    destruct (wrapWatcher_overlay ignoredDirs m v1) as (v2 & Hrun & Hh & Hmap & Hother).
    exists v2. split; [exact Hrun|]. split; [exact Hh|]. split; [|split; [|exact Hother]].
    + intros p Hp Hc. rewrite Hmap, bool_decide_eq_true_2; [done|].
      by apply elem_of_filter_classify.
    + intros p Hp. rewrite Hmap, bool_decide_eq_false_2; [done|].
      by intros ?%elem_of_filter_classify.
Qed.

(** C7 (as the code has it). When the wrapped callback is called with an
    error, the consumer is called at once with the error as its only
    argument, in the world as it is: no map is touched. The other six
    arguments are not passed on. *)
Theorem wrapCallback_error (ignoredFiles ignoredDirs : list string)
    (callback : Invocation → M unit) (a : CallbackArgs) (e : Error) (w : World) :
  err a = Some e →
  wrapCallback ignoredFiles ignoredDirs callback a w = callback (Invoke1 e) w.
Proof. intros H. unfold wrapCallback. by rewrite H. Qed.

(** ** Publishing the build *)

Lemma afterEmit_run (dir : string) (w : World) :
  staticDir (frontEnd w) = Some dir →
  truthy (Some dir) = true →
  afterEmit w =
    copySync (buildDir (frontEnd w)) dir
      (set_frontEnd {| buildDir := buildDir (frontEnd w);
                       staticDir := Some dir;
                       _first := false |}
         (if _first (frontEnd w) && existsSync dir w
          then set_disk (removeTree (resolve plib dir) (disk w)) w
          else w)).
Proof.
  intros Hdir Ht. unfold afterEmit. rewrite bind_run. cbn [get].
  destruct w as [d c sw co h [b sd f]]. cbn [frontEnd staticDir buildDir _first] in *.
  subst sd. rewrite Ht. cbn [negb]. rewrite bind_run.
  destruct (f && existsSync dir _); reflexivity.
Qed.

(** C6. Without a static directory ([undefined] or empty) the hook does
    nothing. With one, the hook clears [_first] and, when it returns
    normally: every entry of the build directory is at the corresponding name
    under the static directory; names outside the static directory are
    untouched; if this was the first emission and the static directory
    existed, the static directory holds the copy and nothing else; otherwise
    every entry of the static directory for which the build directory has no
    counterpart is as it was. *)
Theorem afterEmit_publishes (w : World) :
  (truthy (staticDir (frontEnd w)) = false → afterEmit w = (Ok tt, w))
  ∧ (∀ dir, staticDir (frontEnd w) = Some dir → truthy (Some dir) = true →
       let s := resolve plib (buildDir (frontEnd w)) in
       let t := resolve plib dir in
       let reset := _first (frontEnd w) && existsSync dir w in
       let d := disk w in
       let d' := disk (afterEmit w).2 in
       _first (frontEnd (afterEmit w).2) = false
       ∧ buildDir (frontEnd (afterEmit w).2) = buildDir (frontEnd w)
       ∧ staticDir (frontEnd (afterEmit w).2) = Some dir
       ∧ ((afterEmit w).1 = Ok tt →
            (∀ k n, inTree s k = true → d !! k = Some n → d' !! reroot s t k = Some n)
            ∧ (∀ k, inTree t k = false → d' !! k = d !! k)
            ∧ (reset = true → ∀ k, inTree t k = true → d' !! k = d !! reroot t s k)
            ∧ (reset = false →
                 ∀ k, inTree t k = true → d !! reroot t s k = None → d' !! k = d !! k))).
Proof.
  split.
  - intros Hf. unfold afterEmit. rewrite bind_run. cbn [get].
    destruct (staticDir (frontEnd w)) as [dir|]; [|reflexivity].
    by rewrite Hf.
  - intros dir Hdir Ht s t reset d d'. subst d'.
    rewrite (afterEmit_run dir w Hdir Ht). fold reset. fold s. fold t.
    set (w1 := if reset then set_disk (removeTree t (disk w)) w else w).
    set (w2 := set_frontEnd _ w1).
    assert (disk w2 = if reset then removeTree t d else d) as Hd2.
    { subst w2 w1. by destruct reset. }
    assert (frontEnd w2 = {| buildDir := buildDir (frontEnd w);
                             staticDir := Some dir;
                             _first := false |}) as Hf2 by done.
    pose proof (copySync_outcome (buildDir (frontEnd w)) dir w2) as Hout.
    fold s t in Hout.
    destruct (copySync (buildDir (frontEnd w)) dir w2) as [[[]|e] w3]; cbn [fst snd].
    2: { subst w3. by rewrite Hf2. }
    destruct Hout as (-> & Hsrc & Hst). simpl.
    do 3 (split; [done|]). intros _. change (disk w1) with (disk w2).
    assert (reset = true → inTree t s = false) as Hts.
    { intros Hr. rewrite Hd2, Hr, removeTree_lookup in Hsrc.
      destruct (inTree t s); [by destruct Hsrc|done]. }
    assert (∀ k, inTree s k = true → disk w2 !! k = d !! k) as Hkeep.
    { intros k Hk. rewrite Hd2. destruct reset eqn:Hr; [|done].
      rewrite removeTree_lookup. destruct (inTree t k) eqn:Htk; [|done].
      destruct (inTree_overlap _ _ _ Hk Htk); [congruence|].
      rewrite Hts in *; done. }
    split; [|split; [|split]].
    + intros k n Hk Hn. rewrite copyTree_lookup, inTree_reroot, reroot_reroot by done.
      by rewrite Hkeep, Hn.
    + intros k Hk. rewrite copyTree_lookup, Hk, Hd2.
      destruct reset; [|done]. by rewrite removeTree_lookup, Hk.
    + intros Hr k Hk. rewrite copyTree_lookup, Hk.
      rewrite Hkeep by by apply inTree_reroot.
      destruct (d !! reroot t s k); [done|].
      by rewrite Hd2, Hr, removeTree_lookup, Hk.
    + intros Hr k Hk Hnone. rewrite copyTree_lookup, Hk.
      rewrite Hkeep by by apply inTree_reroot.
      by rewrite Hnone, Hd2, Hr.
Qed.

End Facts.

(** * The installation of [Scenario] *)

Section Installation.
#[local] Existing Instance Scenario.config.
Import Scenario.

Lemma cache_ok_boot (d : gmap string Node) (plugin : FrontEndPlugin) :
  cache_ok (boot d plugin).
Proof. intros p b H. simpl in H. by rewrite lookup_empty in H. Qed.

(** C1. The code does not ignore every path outside the roots: the directory
    [/backup/src/A/lib] equals no root and lies under none, yet the text
    [/src/A/] occurs in it and [ignored] answers [false]. *)
Theorem ignored_outside_root_not_ignored :
  spec_outsideEveryRoot "/backup/src/A/lib" = true
  ∧ (ignored "/backup/src/A/lib" fresh).1 = Ok false.
Proof. split; vm_compute; reflexivity. Qed.

(** Counterexample to C2 as stated: [/src/A/my_node_modules/x.js] lies in
    the root [/src/A], no segment of the rest equals [node_modules], and
    [ignored] answers [true]. *)
Lemma ignored_substring_not_segment :
  inTree "/src/A" (resolve plib "/src/A/my_node_modules/x.js") = true
  ∧ spec_hasSegment "node_modules"
      (Js.slice (resolve plib "/src/A/my_node_modules/x.js") (String.length "/src/A")) = false
  ∧ (ignored "/src/A/my_node_modules/x.js" fresh).1 = Ok true.
Proof. repeat split; vm_compute; reflexivity. Qed.

Lemma ignored_first_matching_root_witness :
  cache_ok fresh
  ∧ inTree "/src/A" (resolve plib "/src/A/node_modules/dep/index.js") = true
  ∧ firstMatch (resolve plib "/src/A/node_modules/dep/index.js") watched = Some ("A", "/src/A")
  ∧ spec_hasSegment "node_modules"
      (Js.slice (resolve plib "/src/A/node_modules/dep/index.js") (String.length "/src/A")) = true
  ∧ (ignored "/src/A/node_modules/dep/index.js" fresh).1 = Ok true.
Proof.
  split; [apply cache_ok_boot|]. do 3 (split; [vm_compute; reflexivity|]).
  apply (ignored_first_matching_root "/src/A/node_modules/dep/index.js" "A" "/src/A" fresh
           (cache_ok_boot _ _) eq_refl eq_refl).
  vm_compute. reflexivity.
Defined.

Lemma watch_overlays_ignored_witness :
  cache_ok fresh
  ∧ ∃ v', wrapCallback
            (List.filter (λ p, classify (resolve plib p)) ["/src/A/lib/x.js"; "/opt/lib/y.js"])
            (List.filter (λ p, classify (resolve plib p)) ["/opt/lib"])
            noteCallback changed fresh
          = noteCallback (Invoke7 changed) v'
      ∧ timeMapAt v' 1%positive !! "/opt/lib/y.js" = Some 1
      ∧ timeMapAt v' 1%positive !! "/opt/lib" = Some 1
      ∧ timeMapAt v' 1%positive !! "/src/A/lib/x.js" = timeMapAt fresh 1%positive !! "/src/A/lib/x.js".
Proof.
  split; [apply cache_ok_boot|].
  destruct (watch_overlays_ignored plainWfs ["/src/A/lib/x.js"; "/opt/lib/y.js"] ["/opt/lib"]
              [] 0 {| poll := Some 333; aggregateTimeout := None |} noteCallback
              (λ _ _, ret tt) fresh (cache_ok_boot _ _)) as (_ & H & _ & _).
  destruct (H changed fresh eq_refl) as (v' & Hrun & _ & Hfiles & Hdirs & Hreal & _).
  exists v'. split; [exact Hrun|]. split; [|split].
  - apply Hfiles; [|vm_compute; reflexivity]. apply list_elem_of_In. simpl. tauto.
  - apply (Hdirs "/opt/lib"); [|vm_compute; reflexivity]. apply list_elem_of_In. simpl. tauto.
  - apply (Hreal "/src/A/lib/x.js"). vm_compute. reflexivity.
Defined.

Lemma ignored_idempotent_witness :
  ignoreCache fresh !! resolve plib "/src/A/lib/x.js" = None
  ∧ (statSync (resolve plib "/src/A/lib/x.js") fresh).1 = Ok regular
  ∧ realpath (disk fresh) (join plib "/linked/A" "/lib/x.js") = Ok "/linked/A/lib/x.js"
  ∧ realpath (disk fresh) (resolve plib "/src/A/lib/x.js") = Ok "/src/A/lib/x.js"
  ∧ (callsN 100 "/src/A/lib/x.js" fresh).1 = replicate 100 (Ok false)
  ∧ statWatchers (callsN 100 "/src/A/lib/x.js" fresh).2
    = {[ "/linked/A/lib/x.js" := {| interval := 500; listeners := [listenerX] |} ]}
  ∧ timerCount (callsN 100 "/src/A/lib/x.js" fresh).2 = 1%nat.
Proof.
  do 4 (split; [vm_compute; reflexivity|]).
  destruct (ignored_idempotent "/src/A/lib/x.js") as (_ & _ & H).
  rewrite (H fresh "A" "/src/A" regular "/linked/A" "/linked/A/lib/x.js" "/src/A/lib/x.js"
             eq_refl eq_refl eq_refl eq_refl eq_refl eq_refl eq_refl eq_refl
             ltac:(discriminate) 99%nat).
  repeat split; vm_compute; reflexivity.
Defined.

(** Counterexample to C5 as stated: nothing exists at [/src/A/lib/gone.js],
    and [maybeSync] throws. *)
Lemma maybeSync_missing_path_throws :
  existsSync "/src/A/lib/gone.js" fresh = false
  ∧ (maybeSync "/src/A/lib/gone.js" "A" "/lib/gone.js" fresh).1 = Throw "ENOENT".
Proof. split; vm_compute; reflexivity. Qed.

Lemma maybeSync_not_a_file_witness :
  (statSync "/src/A/lib" fresh).1 = Ok {| isFile := false; nlink := 1 |}
  ∧ maybeSync "/src/A/lib" "A" "/lib" fresh = (Ok tt, fresh)
  ∧ (statSync "/src/A/lib/gone.js" fresh).1 = Throw "ENOENT"
  ∧ maybeSync "/src/A/lib/gone.js" "A" "/lib/gone.js" fresh = (Throw "ENOENT", fresh).
Proof.
  split; [vm_compute; reflexivity|]. split.
  { apply (proj1 (maybeSync_not_a_file "/src/A/lib" "A" "/lib" fresh)
             {| isFile := false; nlink := 1 |}); vm_compute; reflexivity. }
  split; [vm_compute; reflexivity|].
  apply (proj2 (maybeSync_not_a_file "/src/A/lib/gone.js" "A" "/lib/gone.js" fresh)).
  vm_compute. reflexivity.
Defined.

Lemma afterEmit_publishes_witness :
  let w1 := boot diskBuilt publish in
  let w2 := (afterEmit w1).2 in
  let w3 := set_disk (<["/srv/static/b.txt" := File "extra"]> (disk w2)) w2 in
  let w4 := (afterEmit w3).2 in
  staticDir (frontEnd w1) = Some "/srv/static"
  ∧ truthy (Some "/srv/static") = true
  ∧ (afterEmit w1).1 = Ok tt
  ∧ disk w2 !! "/srv/static/a.js" = Some (File "bundle")
  ∧ disk w2 !! "/srv/static/old.txt" = None
  ∧ (afterEmit w3).1 = Ok tt
  ∧ disk w4 !! "/srv/static/a.js" = Some (File "bundle")
  ∧ disk w4 !! "/srv/static/b.txt" = Some (File "extra").
Proof.
  intros w1 w2 w3 w4.
  do 3 (split; [vm_compute; reflexivity|]).
  destruct (proj2 (afterEmit_publishes w1) "/srv/static" eq_refl eq_refl)
    as (_ & _ & _ & H1).
  destruct (H1 ltac:(vm_compute; reflexivity)) as (Hcopy1 & _ & Hreset & _).
  split. { apply (Hcopy1 "/src/staging/build/a.js"); vm_compute; reflexivity. }
  split. { etrans; [apply (Hreset ltac:(vm_compute; reflexivity) "/srv/static/old.txt")|];
           vm_compute; reflexivity. }
  split; [vm_compute; reflexivity|].
  destruct (proj2 (afterEmit_publishes w3) "/srv/static"
              ltac:(vm_compute; reflexivity) eq_refl) as (_ & _ & _ & H3).
  destruct (H3 ltac:(vm_compute; reflexivity)) as (Hcopy3 & _ & _ & Hstay).
  split. { apply (Hcopy3 "/src/staging/build/a.js"); vm_compute; reflexivity. }
  etrans; [apply (Hstay ltac:(vm_compute; reflexivity) "/srv/static/b.txt")|];
    vm_compute; reflexivity.
Defined.

(** Counterexample to C7 as stated: called with an error and a list of
    modified files, the wrapper calls the consumer with the error alone. *)
Lemma wrapCallback_error_drops_arguments :
  err failed = Some "EMFILE"
  ∧ wrapCallback [] [] noteCallback failed fresh = noteCallback (Invoke1 "EMFILE") fresh
  ∧ wrapCallback [] [] noteCallback failed fresh ≠ noteCallback (Invoke7 failed) fresh.
Proof.
  split; [reflexivity|]. split; [reflexivity|].
  intros H. apply (f_equal (λ r, console r.2)) in H. vm_compute in H. discriminate.
Qed.

Lemma wrapCallback_error_witness :
  err failed = Some "EMFILE"
  ∧ (wrapCallback ["/opt/lib/y.js"] ["/opt/lib"] noteCallback failed fresh).2
    = set_console ["callback(err): EMFILE"] fresh.
Proof.
  split; [reflexivity|].
  rewrite (wrapCallback_error ["/opt/lib/y.js"] ["/opt/lib"] noteCallback failed "EMFILE" fresh eq_refl).
  reflexivity.
Defined.

Lemma maybeSync_same_file_no_task_witness :
  let w := boot diskLinked noPublish in
  (statSync "/src/A/lib/x.js" w).1 = Ok regular
  ∧ realpath (disk w) (join plib "/linked/A" "/lib/x.js") = Ok "/linked/A/lib/x.js"
  ∧ realpath (disk w) "/src/A/lib/x.js" = Ok "/linked/A/lib/x.js"
  ∧ maybeSync "/src/A/lib/x.js" "A" "/lib/x.js" w = (Ok tt, w)
  ∧ timerCount (ignored "/src/A/lib/x.js" w).2 = 0%nat.
Proof.
  intros w. do 3 (split; [vm_compute; reflexivity|]). split.
  - apply (maybeSync_same_file_no_task "/src/A/lib/x.js" "A" "/lib/x.js" "/linked/A"
             "/linked/A/lib/x.js" regular w); vm_compute; reflexivity.
  - vm_compute. reflexivity.
Defined.

Lemma syncListener_tick_witness :
  nlink regular ≠ 0
  ∧ disk fresh !! resolve plib (source listenerX) = Some (File "new")
  ∧ (readFileSync "/src/A/lib/x.js" (syncListener listenerX (Some regular) fresh).2).1 = Ok "new"
  ∧ syncListener listenerX (Some regular) (boot diskUnbuilt noPublish) = (Ok tt, afterFailedTick)
  ∧ (readFileSync "/src/A/lib/x.js"
       (syncListener listenerX (Some regular) builtLater).2).1 = Ok "built".
Proof.
  split; [discriminate|]. split; [vm_compute; reflexivity|].
  split.
  { pose proof (proj2 (proj2 (syncListener_tick listenerX (Some regular) fresh))
                  regular eq_refl ltac:(discriminate)) as H.
    destruct (copySync (source listenerX) (localPath listenerX) fresh) as [[[]|e] w'] eqn:Hc;
      [|vm_compute in Hc; discriminate].
    destruct H as (-> & _ & Hdata). apply (Hdata "new"). vm_compute. reflexivity. }
  split.
  { pose proof (proj2 (proj2 (syncListener_tick listenerX (Some regular)
                                (boot diskUnbuilt noPublish)))
                  regular eq_refl ltac:(discriminate)) as H.
    destruct (copySync (source listenerX) (localPath listenerX) (boot diskUnbuilt noPublish))
      as [[[]|e] w'] eqn:Hc; [vm_compute in Hc; discriminate|].
    destruct H as (_ & ->). vm_compute in Hc. injection Hc as <- _. reflexivity. }
  pose proof (proj2 (proj2 (syncListener_tick listenerX (Some regular) builtLater))
                regular eq_refl ltac:(discriminate)) as H.
  destruct (copySync (source listenerX) (localPath listenerX) builtLater) as [[[]|e] w'] eqn:Hc;
    [|vm_compute in Hc; discriminate].
  destruct H as (-> & _ & Hdata). apply (Hdata "built"). vm_compute. reflexivity.
Defined.

Lemma ignored_throw_leaves_cache_witness :
  ignoreCache fresh !! resolve plib "/src/A/lib/gone.js" = None
  ∧ firstMatch (resolve plib "/src/A/lib/gone.js") watched = Some ("A", "/src/A")
  ∧ (statSync (resolve plib "/src/A/lib/gone.js") fresh).1 = Throw "ENOENT"
  ∧ ignored "/src/A/lib/gone.js" fresh = (Throw "ENOENT", fresh)
  ∧ (ignored "/src/A/lib/gone.js" goneCreated).1 = Ok false.
Proof.
  do 3 (split; [vm_compute; reflexivity|]).
  destruct (ignored_throw_leaves_cache "/src/A/lib/gone.js" "A" "/src/A" "ENOENT" fresh
              ltac:(vm_compute; reflexivity) ltac:(vm_compute; reflexivity)
              ltac:(vm_compute; reflexivity) ltac:(vm_compute; reflexivity))
    as [Hthrow Hlater].
  split; [exact Hthrow|].
  rewrite (Hlater goneCreated ltac:(reflexivity)).
  vm_compute. reflexivity.
Defined.

End Installation.

(** * Further properties of the script *)

Section More.
Context {cfg : Config}.

(** ** The classification, continued *)

Lemma firstMatch_none (path : string) (roots : list (string * string)) :
  (∀ r, r ∈ roots → matchesRoot path r.2 = false) → firstMatch path roots = None.
Proof.
  induction roots as [|r roots IH]; intros H; [done|].
  unfold firstMatch. cbn [List.find]. rewrite (H r) by left.
  apply IH. intros r' Hr'. apply H. by right.
Qed.

Lemma firstMatch_app (path name rootPath : string) (pre post : list (string * string)) :
  (∀ r, r ∈ pre → matchesRoot path r.2 = false) →
  matchesRoot path rootPath = true →
  firstMatch path (pre ++ (name, rootPath) :: post) = Some (name, rootPath).
Proof.
  induction pre as [|r pre IH]; intros Hpre Hroot.
  - unfold firstMatch. cbn [app List.find snd]. by rewrite Hroot.
  - unfold firstMatch. cbn [app List.find]. rewrite (Hpre r) by left.
    apply IH; [|done]. intros r' Hr'. apply Hpre. by right.
Qed.

(** The world after a call of [ignored]: the same, or with one more cached
    answer, or with one more cached answer and one more listener. *)
Lemma ignored_world (path : string) (w : World) :
  (ignored path w).2 = w
  ∨ (∃ b, ignoreCache w !! resolve plib path = None
          ∧ (ignored path w).2
            = set_ignoreCache (<[resolve plib path := b]> (ignoreCache w)) w)
  ∨ (∃ b src, ignoreCache w !! resolve plib path = None
          ∧ (ignored path w).2
            = set_ignoreCache (<[resolve plib path := b]> (ignoreCache w))
                (watchFile src 500 {| source := src; localPath := resolve plib path |} w).2).
Proof.
  rewrite ignored_unfold.
  destruct (ignoreCache w !! resolve plib path) as [cached|] eqn:Hc; [by left|].
  rewrite scanRoots_unfold.
  destruct (firstMatch _ _) as [[name rootPath]|]; [|right; left; by exists true].
  simpl. destruct (_ =? -1); [|right; left; by exists true].
  pose proof (maybeSync_frame (resolve plib path) name
                (Js.slice (resolve plib path) (String.length rootPath)) w) as Hf.
  destruct (maybeSync _ _ _ w) as [[[]|e] w']; simpl.
  - destruct Hf as [[->|(src & _ & ->)] _].
    + right. left. by exists false.
    + right. right. by exists false, src.
  - destruct Hf as [_ Hf]. left. by apply (Hf e).
Qed.

(** X1. A path that equals no root and in which no root followed by the
    separator occurs is ignored; with no root at all, every path is. The call
    caches the answer and neither touches the disk nor registers a listener. *)
Theorem ignored_unmatched (path : string) (w : World) :
  cache_ok w →
  (∀ name rootPath, (name, rootPath) ∈ watched →
     resolve plib path ≠ rootPath
     ∧ Js.indexOf (resolve plib path) (rootPath +:+ String (sep plib) "") = -1) →
  (ignored path w).1 = Ok true
  ∧ ignoreCache (ignored path w).2 !! resolve plib path = Some true
  ∧ statWatchers (ignored path w).2 = statWatchers w
  ∧ disk (ignored path w).2 = disk w.
Proof.
  intros Hok Hout.
  assert (firstMatch (resolve plib path) watched = None) as Hnone.
  { apply firstMatch_none. intros [name rootPath] Hr.
    destruct (Hout name rootPath Hr) as [Hne Hidx]. unfold matchesRoot. simpl.
    apply String.eqb_neq in Hne. rewrite Hne, Hidx. done. }
  rewrite ignored_unfold.
  destruct (ignoreCache w !! resolve plib path) as [cached|] eqn:Hc.
  - pose proof (Hok _ _ Hc) as Hcl. unfold classify in Hcl. rewrite Hnone in Hcl.
    subst cached. simpl. by rewrite Hc.
  - rewrite scanRoots_unfold, Hnone. simpl. by rewrite lookup_insert_eq.
Qed.

(** X2. The cache only grows: a call of [ignored] keeps every cached
    answer, changes no key but the resolved path, and keeps the cache
    consistent with the roots. *)
Theorem ignored_cache_grows (path : string) (w : World) :
  (∀ q c, ignoreCache w !! q = Some c → ignoreCache (ignored path w).2 !! q = Some c)
  ∧ (∀ q, q ≠ resolve plib path →
       ignoreCache (ignored path w).2 !! q = ignoreCache w !! q)
  ∧ (cache_ok w → cache_ok (ignored path w).2).
Proof.
  split; [|split].
  - intros q c Hq.
    destruct (ignored_world path w) as [->|[(b & Hmiss & ->)|(b & src & Hmiss & ->)]];
      [done|simpl..]; rewrite lookup_insert_ne; congruence.
  - intros q Hne.
    destruct (ignored_world path w) as [->|[(b & Hmiss & ->)|(b & src & Hmiss & ->)]];
      [done|simpl..]; by rewrite lookup_insert_ne.
  - intros Hok. pose proof (ignored_outcome path w Hok) as H.
    destruct (ignored path w) as [[b|e] w']; simpl; [by destruct H as (_ & _ & ? & _)|].
    by subst w'.
Qed.

(** X3. Classification never writes to the disk, the console, a [Map] or the
    plugin. It never removes a polling timer either: every timer is still
    there afterwards, with its interval and the listeners it had, in order. *)
Theorem ignored_keeps_world (path : string) (w : World) :
  disk (ignored path w).2 = disk w
  ∧ console (ignored path w).2 = console w
  ∧ heap (ignored path w).2 = heap w
  ∧ frontEnd (ignored path w).2 = frontEnd w
  ∧ ∀ k sw, statWatchers w !! k = Some sw →
      ∃ sw', statWatchers (ignored path w).2 !! k = Some sw'
        ∧ interval sw' = interval sw
        ∧ listeners sw `prefix_of` listeners sw'.
Proof.
  destruct (ignored_world path w) as [->|[(b & _ & ->)|(b & src & _ & ->)]].
  - repeat split; try done. intros k sw Hk. by exists sw.
  - repeat split; try done. intros k sw Hk. by exists sw.
  - repeat split; try done. intros k sw Hk. simpl.
    destruct (decide (resolve plib src = k)) as [<-|Hne].
    + rewrite lookup_insert_eq, Hk. eexists. split; [done|]. split; [done|].
      by apply prefix_app_r.
    + rewrite lookup_insert_ne by done. by exists sw.
Qed.

(** X4. The cache is keyed by the resolved path and never looks at the disk
    again: once [ignored] has answered for one spelling of a path, every
    spelling that resolves to the same path gets the same answer without any
    effect, in every later world that has the same cache, whatever became of
    the files. *)
Theorem ignored_same_resolved (p q : string) (b : bool) (w w1 w2 : World) :
  resolve plib q = resolve plib p →
  ignored p w = (Ok b, w1) →
  ignoreCache w2 = ignoreCache w1 →
  ignored q w2 = (Ok b, w2).
Proof.
  intros Hpq Hp Hc. apply ignored_cached. rewrite Hpq, Hc.
  pose proof (ignored_frame p w) as Hf. rewrite Hp in Hf.
  destruct Hf as (_ & Hf & _). by apply Hf.
Qed.

(** X17. A directory of a watched package, the root itself included, is not
    ignored and not mirrored: when the walk stops at a root, [node_modules]
    does not occur in the rest and the path is not a regular file, [ignored]
    returns [false] and changes nothing but the cache. *)
Theorem ignored_directory (path name rootPath : string) (stats : Stats) (w : World) :
  ignoreCache w !! resolve plib path = None →
  firstMatch (resolve plib path) watched = Some (name, rootPath) →
  Js.indexOf (Js.slice (resolve plib path) (String.length rootPath)) "node_modules" = -1 →
  (statSync (resolve plib path) w).1 = Ok stats →
  isFile stats = false →
  ignored path w
  = (Ok false, set_ignoreCache (<[resolve plib path := false]> (ignoreCache w)) w).
Proof.
  intros Hmiss Hroot Hfree Hs Hf.
  rewrite ignored_unfold, Hmiss, scanRoots_unfold, Hroot. simpl.
  apply Z.eqb_eq in Hfree as ->.
  by rewrite maybeSync_unfold, Hs, Hf.
Qed.

(** X5. The first matching root decides: the roots listed after it are never
    looked at, whatever they are. *)
Theorem scanRoots_first_match_wins (path name rootPath : string)
    (pre post : list (string * string)) (w : World) :
  (∀ r, r ∈ pre → matchesRoot path r.2 = false) →
  matchesRoot path rootPath = true →
  scanRoots path (pre ++ (name, rootPath) :: post) w
  = scanRoots path [(name, rootPath)] w.
Proof.
  intros Hpre Hroot. rewrite !scanRoots_unfold.
  rewrite (firstMatch_app path name rootPath pre post Hpre Hroot).
  pose proof (firstMatch_app path name rootPath [] []
                ltac:(by intros r ?%elem_of_nil) Hroot) as H.
  cbn [app] in H. by rewrite H.
Qed.

(** ** The mirror, continued *)

Lemma trees_apart (s t k : string) :
  inTree s t = false → inTree t s = false → inTree s k = true → inTree t k = false.
Proof.
  intros Hst Hts Hk. destruct (inTree t k) eqn:Htk; [|done].
  destruct (inTree_overlap _ _ _ Hk Htk); congruence.
Qed.

(** The copy refuses exactly when some entry would change between directory
    and non-directory. *)
Lemma kindClash_false (s t : string) (d : gmap string Node) :
  kindClash s t d = false ↔
  ∀ k n n', d !! k = Some n → inTree s k = true → d !! reroot s t k = Some n' →
            isDir n = isDir n'.
Proof.
  unfold kindClash.
  set (f := λ (k : string) (n : Node) (found : bool),
              found || (inTree s k &&
                        match d !! reroot s t k with
                        | Some n' => negb (Bool.eqb (isDir n) (isDir n'))
                        | None => false
                        end)).
  enough (∀ m : gmap string Node,
            map_fold f false m = false ↔
            ∀ k n n', m !! k = Some n → inTree s k = true → d !! reroot s t k = Some n' →
                      isDir n = isDir n') as H by apply H.
  intros m.
  apply (map_fold_weak_ind (λ (b : bool) (m0 : gmap string Node),
           b = false ↔
           ∀ k n n', m0 !! k = Some n → inTree s k = true → d !! reroot s t k = Some n' →
                     isDir n = isDir n')).
  - split; [|done]. intros _ k n n' Hk. by rewrite lookup_empty in Hk.
  - intros i x m0 b Hi [IH1 IH2]. unfold f at 1. split.
    + intros [Hb Hx]%orb_false_iff k n n' Hk Hin Hd.
      destruct (decide (i = k)) as [->|Hne].
      * rewrite lookup_insert_eq in Hk. injection Hk as <-.
        rewrite Hin, Hd in Hx. simpl in Hx.
        apply negb_false_iff in Hx. by apply Bool.eqb_prop.
      * rewrite lookup_insert_ne in Hk by done. by apply (IH1 Hb k n n').
    + intros H. apply orb_false_iff. split.
      * apply IH2. intros k n n' Hk. apply H.
        rewrite lookup_insert_ne; [done|]. intros ->. congruence.
      * destruct (inTree s i) eqn:Hin; [|done]. simpl.
        destruct (d !! reroot s t i) as [n'|] eqn:Hd; [|done].
        apply negb_false_iff. rewrite (H i x n'); [apply Bool.eqb_reflx| |done..].
        by rewrite lookup_insert_eq.
Qed.

Lemma copySync_ok (src dest : string) (w : World) :
  (copySync src dest w).1 = Ok tt ↔
  is_Some (disk w !! resolve plib src)
  ∧ inTree (resolve plib src) (resolve plib dest) = false
  ∧ kindClash (resolve plib src) (resolve plib dest) (disk w) = false.
Proof.
  unfold copySync. destruct (disk w !! resolve plib src) as [n|]; simpl.
  - destruct (inTree _ _); simpl; [split; [done|by intros (_ & ? & _)]|].
    destruct (kindClash _ _ _); simpl; [split; [done|by intros (_ & _ & ?)]|].
    split; [eauto|done].
  - split; [done|]. by intros [[? ?] _].
Qed.

(** Copying a second time changes nothing, when neither tree holds the other. *)
Lemma copyTree_idem (s t : string) (d : gmap string Node) :
  inTree s t = false → inTree t s = false →
  copyTree s t (copyTree s t d) = copyTree s t d.
Proof.
  intros Hst Hts. apply map_eq. intros k. rewrite copyTree_lookup.
  destruct (inTree t k) eqn:Hk; [|done].
  assert (copyTree s t d !! reroot t s k = d !! reroot t s k) as ->.
  { rewrite copyTree_lookup. rewrite (trees_apart s t); [done..|]. by apply inTree_reroot. }
  rewrite copyTree_lookup, Hk. by destruct (d !! reroot t s k).
Qed.

Lemma kindClash_copied (s t : string) (d : gmap string Node) :
  inTree s t = false → inTree t s = false →
  kindClash s t (copyTree s t d) = false.
Proof.
  intros Hst Hts. apply kindClash_false. intros k n n' Hk Hin Hd.
  rewrite copyTree_lookup, (trees_apart s t k Hst Hts Hin) in Hk.
  rewrite copyTree_lookup, inTree_reroot, reroot_reroot, Hk in Hd by done.
  by injection Hd as <-.
Qed.

Lemma copySync_again (src dest : string) (w w1 : World) :
  copySync src dest w = (Ok tt, w1) →
  inTree (resolve plib dest) (resolve plib src) = false →
  copySync src dest w1 = (Ok tt, w1).
Proof.
  intros Hc Hts. pose proof (copySync_outcome src dest w) as H. rewrite Hc in H.
  destruct H as (-> & Hsrc & Hst). unfold copySync. cbn [disk set_disk].
  assert (copyTree (resolve plib src) (resolve plib dest) (disk w) !! resolve plib src
          = disk w !! resolve plib src) as Hs.
  { by rewrite copyTree_lookup, Hts. }
  rewrite Hs. destruct Hsrc as [n ->]. rewrite Hst.
  rewrite kindClash_copied, copyTree_idem by done. reflexivity.
Qed.

(** X6. For a regular file whose canonical path differs from the canonical
    path of its linked source, [maybeSync] returns after one registration with
    [fs.watchFile] and changes nothing else. A source not watched yet gets a
    new timer with interval 500 and this one listener; a source watched
    already keeps its timer and interval and gets the listener appended. *)
Theorem maybeSync_registers (lp name rest linked src loc : string)
    (stats : Stats) (w : World) :
  (statSync lp w).1 = Ok stats →
  isFile stats = true →
  jlab_watchedPackages !! name = Some linked →
  realpath (disk w) (join plib linked rest) = Ok src →
  realpath (disk w) lp = Ok loc →
  src ≠ loc →
  let l := {| source := src; localPath := lp |} in
  let w' := (maybeSync lp name rest w).2 in
  (maybeSync lp name rest w).1 = Ok tt
  ∧ disk w' = disk w ∧ ignoreCache w' = ignoreCache w ∧ console w' = console w
  ∧ (∀ k, k ≠ resolve plib src → statWatchers w' !! k = statWatchers w !! k)
  ∧ match statWatchers w !! resolve plib src with
    | None =>
        statWatchers w' !! resolve plib src = Some {| interval := 500; listeners := [l] |}
        ∧ timerCount w' = S (timerCount w)
    | Some sw =>
        statWatchers w' !! resolve plib src
        = Some {| interval := interval sw; listeners := listeners sw ++ [l] |}
        ∧ timerCount w' = timerCount w
    end.
Proof.
  intros Hs Hf Hl Hsrc Hloc Hne l w'. subst w'.
  rewrite maybeSync_unfold, Hs, Hf, Hl, Hsrc, Hloc. simpl.
  apply String.eqb_neq in Hne as ->. unfold watchFile, modify. simpl.
  do 4 (split; [done|]). split.
  - intros k Hk. by rewrite lookup_insert_ne.
  - unfold timerCount. simpl.
    destruct (statWatchers w !! resolve plib src) as [sw|] eqn:Hk.
    + rewrite lookup_insert_eq. split; [done|].
      rewrite map_size_insert_Some; [done|eauto].
    + rewrite lookup_insert_eq. split; [done|]. by rewrite map_size_insert_None.
Qed.

(** X7. A regular file in a watched package that has no counterpart among
    the linked sources makes [ignored] throw: [fs.realpathSync] fails on the
    source path, nothing is cached and nothing registered. *)
Theorem ignored_missing_source_throws (path name rootPath linked : string)
    (stats : Stats) (e : Error) (w : World) :
  ignoreCache w !! resolve plib path = None →
  firstMatch (resolve plib path) watched = Some (name, rootPath) →
  Js.indexOf (Js.slice (resolve plib path) (String.length rootPath)) "node_modules" = -1 →
  (statSync (resolve plib path) w).1 = Ok stats →
  isFile stats = true →
  jlab_watchedPackages !! name = Some linked →
  realpath (disk w)
    (join plib linked (Js.slice (resolve plib path) (String.length rootPath))) = Throw e →
  ignored path w = (Throw e, w).
Proof.
  intros Hmiss Hroot Hfree Hs Hf Hl Hsrc.
  rewrite ignored_unfold, Hmiss, scanRoots_unfold, Hroot. simpl.
  apply Z.eqb_eq in Hfree as ->.
  by rewrite maybeSync_unfold, Hs, Hf, Hl, Hsrc.
Qed.

(** X8. The mirror end to end: after [ignored] has classified a regular file
    that differs from its linked source, a listener for the pair is
    registered under the source; when it is called with a positive link count
    and the copy succeeds, the local file holds the data of the source. *)
Theorem mirror_after_tick (path name rootPath linked src loc data : string)
    (stats c : Stats) (w : World) :
  ignoreCache w !! resolve plib path = None →
  firstMatch (resolve plib path) watched = Some (name, rootPath) →
  Js.indexOf (Js.slice (resolve plib path) (String.length rootPath)) "node_modules" = -1 →
  (statSync (resolve plib path) w).1 = Ok stats →
  isFile stats = true →
  jlab_watchedPackages !! name = Some linked →
  realpath (disk w)
    (join plib linked (Js.slice (resolve plib path) (String.length rootPath))) = Ok src →
  realpath (disk w) (resolve plib path) = Ok loc →
  src ≠ loc →
  disk w !! resolve plib src = Some (File data) →
  nlink c ≠ 0 →
  let l := {| source := src; localPath := resolve plib path |} in
  let w1 := (ignored path w).2 in
  (copySync src (resolve plib path) w1).1 = Ok tt →
  (∃ sw, statWatchers w1 !! resolve plib src = Some sw ∧ l ∈ listeners sw)
  ∧ (readFileSync (resolve plib path) (syncListener l (Some c) w1).2).1 = Ok data.
Proof.
  intros Hmiss Hroot Hfree Hs Hf Hl Hsrc Hloc Hne Hdata Hc l w1.
  assert (w1 = set_ignoreCache (<[resolve plib path := false]> (ignoreCache w))
                 (watchFile src 500 l w).2) as Hw1.
  { subst w1. rewrite ignored_unfold, Hmiss, scanRoots_unfold, Hroot. simpl.
    apply Z.eqb_eq in Hfree as ->.
    rewrite maybeSync_unfold, Hs, Hf, Hl, Hsrc, Hloc. simpl.
    apply String.eqb_neq in Hne as ->. reflexivity. }
  clearbody w1. subst w1. intros Hcopy. split.
  - simpl. rewrite lookup_insert_eq. eexists. split; [done|].
    destruct (statWatchers w !! resolve plib src); simpl;
      [apply elem_of_app; right|]; by apply list_elem_of_singleton.
  - unfold syncListener. apply Z.eqb_neq in Hc as ->. unfold try_catch.
    destruct (copySync _ _ _) as [[[]|e] w2] eqn:Hrun; [|done].
    simpl. by apply (copySync_file _ _ _ _ _ Hrun).
Qed.


(** X10. Ticks are idempotent: after a tick that copied, with the source
    outside the tree of [localPath], a second tick leaves the world as the
    first one left it. *)
Theorem syncListener_tick_twice (l : SyncListener) (c : Stats) (w : World) :
  nlink c ≠ 0 →
  (copySync (source l) (localPath l) w).1 = Ok tt →
  inTree (resolve plib (localPath l)) (resolve plib (source l)) = false →
  syncListener l (Some c) (syncListener l (Some c) w).2
  = (Ok tt, (syncListener l (Some c) w).2).
Proof.
  intros Hc Hcopy Hts. unfold syncListener. apply Z.eqb_neq in Hc as ->.
  unfold try_catch.
  destruct (copySync (source l) (localPath l) w) as [[[]|e] w1] eqn:Hrun; [|done].
  simpl. by rewrite (copySync_again _ _ _ _ Hrun Hts).
Qed.

(** ** Publishing, continued *)

Lemma set_frontEnd_same (w : World) (dir : string) :
  staticDir (frontEnd w) = Some dir → _first (frontEnd w) = false →
  set_frontEnd {| buildDir := buildDir (frontEnd w); staticDir := Some dir; _first := false |} w
  = w.
Proof. destruct w as [d c sw co h [b sd f]]. simpl. by intros -> ->. Qed.

(** X11. A failing emission is not undone and not retried: when the copy
    throws, as it does when the build directory is missing, the error leaves
    the hook, [_first] is cleared all the same and the static directory stays
    deleted if this was the first emission; the next emission does not reset. *)
Theorem afterEmit_failure (dir : string) (w : World) :
  staticDir (frontEnd w) = Some dir →
  truthy (Some dir) = true →
  let reset := _first (frontEnd w) && existsSync dir w in
  (disk w !! resolve plib (buildDir (frontEnd w)) = None →
     (afterEmit w).1 = Throw "ENOENT")
  ∧ (∀ e, (afterEmit w).1 = Throw e →
       _first (frontEnd (afterEmit w).2) = false
       ∧ staticDir (frontEnd (afterEmit w).2) = Some dir
       ∧ disk (afterEmit w).2
         = (if reset then removeTree (resolve plib dir) (disk w) else disk w)
       ∧ _first (frontEnd (afterEmit w).2) && existsSync dir (afterEmit w).2 = false).
Proof.
  intros Hdir Ht reset. rewrite (afterEmit_run dir w Hdir Ht). fold reset.
  set (w1 := if reset then set_disk (removeTree (resolve plib dir) (disk w)) w else w).
  set (w2 := set_frontEnd _ w1).
  assert (disk w2 = if reset then removeTree (resolve plib dir) (disk w) else disk w) as Hd2.
  { subst w2 w1. by destruct reset. }
  split.
  - intros Hnone. unfold copySync.
    assert (disk w2 !! resolve plib (buildDir (frontEnd w)) = None) as ->; [|done].
    rewrite Hd2. destruct reset; [|done].
    rewrite removeTree_lookup. by destruct (inTree _ _).
  - intros e He. pose proof (copySync_outcome (buildDir (frontEnd w)) dir w2) as Hout.
    destruct (copySync (buildDir (frontEnd w)) dir w2) as [[[]|e'] w3]; [done|].
    subst w3. cbn [snd].
    assert (frontEnd w2 = {| buildDir := buildDir (frontEnd w); staticDir := Some dir;
                             _first := false |}) as Hf2 by done.
    rewrite Hf2, Hd2. done.
Qed.

(** X12. Emitting twice is emitting once: after an emission that returned,
    with the build directory outside the static directory, the next emission
    returns and leaves the world as it was. *)
Theorem afterEmit_twice (dir : string) (w : World) :
  staticDir (frontEnd w) = Some dir →
  truthy (Some dir) = true →
  (afterEmit w).1 = Ok tt →
  inTree (resolve plib dir) (resolve plib (buildDir (frontEnd w))) = false →
  afterEmit (afterEmit w).2 = (Ok tt, (afterEmit w).2).
Proof.
  intros Hdir Ht. rewrite (afterEmit_run dir w Hdir Ht).
  set (w2 := set_frontEnd _ _).
  assert (frontEnd w2 = {| buildDir := buildDir (frontEnd w); staticDir := Some dir;
                           _first := false |}) as Hf2 by done.
  destruct (copySync (buildDir (frontEnd w)) dir w2) as [[[]|e] w3] eqn:Hrun; [|done].
  intros _ Hts. cbn [snd].
  pose proof (copySync_outcome (buildDir (frontEnd w)) dir w2) as Hout. rewrite Hrun in Hout.
  destruct Hout as (Hw3 & _).
  assert (frontEnd w3 = frontEnd w2) as Hf3 by by rewrite Hw3.
  assert (staticDir (frontEnd w3) = Some dir) as Hdir3 by by rewrite Hf3, Hf2.
  assert (_first (frontEnd w3) = false) as Hfirst3 by by rewrite Hf3, Hf2.
  rewrite (afterEmit_run dir w3 Hdir3 Ht), Hfirst3. cbn [andb].
  rewrite (set_frontEnd_same w3 dir Hdir3 Hfirst3).
  assert (buildDir (frontEnd w3) = buildDir (frontEnd w)) as -> by by rewrite Hf3, Hf2.
  by apply (copySync_again _ _ _ _ Hrun).
Qed.

(** ** The watch wrapper, continued *)

Lemma filterM_throws (f : string → M bool) (pre post kept : list string) (p : string)
    (e : Error) (w w1 w2 : World) :
  filterM f pre w = (Ok kept, w1) →
  f p w1 = (Throw e, w2) →
  filterM f (pre ++ p :: post) w = (Throw e, w2).
Proof.
  revert kept w. induction pre as [|x pre IH]; intros kept w Hpre Hp.
  - injection Hpre as <- <-. cbn [app filterM]. by rewrite bind_run, Hp.
  - cbn [app filterM] in *. rewrite bind_run in *.
    destruct (f x w) as [[b|e'] w']; [|done].
    rewrite bind_run in Hpre. rewrite bind_run.
    destruct (filterM f pre w') as [[kept'|e'] w''] eqn:Hrest; [|done].
    injection Hpre as <- <-. by rewrite (IH kept' w' Hrest Hp).
Qed.

(** X13. One failing classification fails the whole [watch]: if [ignored]
    throws on a path of [files] after the paths before it were classified,
    [watch] throws the same error in the world reached then, whatever the
    wrapped watch system is; it is never called. *)
Theorem watch_throws_on_failing_path (this : FilterIgnoringWatchFileSystem)
    (pre post kept dirs missing : list string) (p : string) (e : Error)
    (startTime : Z) (options : WatchOptions) (callback : Invocation → M unit)
    (callbackUndelayed : string → Z → M unit) (w w1 w2 : World) :
  filterM ignored pre w = (Ok kept, w1) →
  ignored p w1 = (Throw e, w2) →
  watch this (pre ++ p :: post) dirs missing startTime options callback callbackUndelayed w
  = (Throw e, w2).
Proof.
  intros Hpre Hp. unfold watch. rewrite bind_run.
  by rewrite (filterM_throws ignored pre post kept p e w w1 w2 Hpre Hp).
Qed.

(** ** Start-up *)

Lemma inWatched_false (name : string) (entries : list (string * string)) :
  inWatched name entries = false ↔ (name ∉ entries.*1) ∧ (name ∉ objectPrototypeKeys).
Proof.
  unfold inWatched. rewrite orb_false_iff, !bool_decide_eq_false. done.
Qed.

Lemma initWatched_inv (requireResolve : string → result string) (dirname : string → string)
    (names : list string) (entries ws : list (string * string)) :
  initWatched requireResolve dirname names entries = Ok ws →
  (NoDup entries.*1 → NoDup ws.*1)
  ∧ (∀ n root, (n, root) ∈ ws →
       (n, root) ∈ entries
       ∨ (n ∈ names ∧ (n ∉ objectPrototypeKeys)
          ∧ ∃ p, requireResolve (join plib n "package.json") = Ok p ∧ root = dirname p))
  ∧ (∀ n, n ∈ entries.*1 → n ∈ ws.*1)
  ∧ (∀ n, n ∈ names → n ∉ objectPrototypeKeys → n ∈ ws.*1).
Proof.
  revert entries. induction names as [|name names IH]; intros entries; cbn [initWatched].
  - intros [= <-]. repeat split; auto. intros n Hn. by apply elem_of_nil in Hn.
  - destruct (inWatched name entries) eqn:Hin.
    + intros H. destruct (IH _ H) as (Hnd & Horigin & Hkeep & Hall).
      repeat split; [done| |done|].
      * intros n root Hn. destruct (Horigin n root Hn) as [?|(? & ? & ?)]; [by left|].
        right. split; [by right|done].
      * intros n [->|Hn]%elem_of_cons Hproto; [|by apply Hall].
        apply Hkeep. unfold inWatched in Hin.
        apply orb_true_iff in Hin as [Hin|Hin]; apply bool_decide_eq_true in Hin; done.
    + destruct (requireResolve (join plib name "package.json")) as [p|e] eqn:Hres; [|done].
      intros H. destruct (IH _ H) as (Hnd & Horigin & Hkeep & Hall).
      apply inWatched_false in Hin as [Hfresh Hproto].
      repeat split.
      * intros Hentries. apply Hnd. rewrite fmap_app. apply NoDup_app.
        split; [done|]. split; [|apply NoDup_singleton].
        intros n Hn ->%list_elem_of_singleton. done.
      * intros n root Hn. destruct (Horigin n root Hn) as [Hold|(? & ? & ?)].
        -- apply elem_of_app in Hold as [?|[= -> ->]%list_elem_of_singleton]; [by left|].
           right. split; [by left|]. split; [done|]. by exists p.
        -- right. split; [by right|done].
      * intros n Hn. apply Hkeep. rewrite fmap_app. apply elem_of_app. by left.
      * intros n [->|Hn]%elem_of_cons Hp; [|by apply Hall].
        apply Hkeep. rewrite fmap_app. apply elem_of_app. right. by left.
Qed.

(** X14. When the loop of lines 55-59 ends normally, [watched] holds each
    name once; every entry comes from a package name that resolved, with the
    directory of the resolved [package.json] as its root; and every package
    name is there, except the names an object literal inherits ([toString],
    [constructor], ...), which the test [name in watched] skips. *)
Theorem initWatched_entries (requireResolve : string → result string)
    (dirname : string → string) (names : list string) (ws : list (string * string)) :
  initWatched requireResolve dirname names [] = Ok ws →
  NoDup ws.*1
  ∧ (∀ n root, (n, root) ∈ ws →
       n ∈ names ∧ (n ∉ objectPrototypeKeys)
       ∧ ∃ p, requireResolve (join plib n "package.json") = Ok p ∧ root = dirname p)
  ∧ (∀ n, n ∈ names → n ∉ objectPrototypeKeys → n ∈ ws.*1).
Proof.
  intros H. destruct (initWatched_inv _ _ _ _ _ H) as (Hnd & Horigin & _ & Hall).
  split; [apply Hnd, NoDup_nil_2|]. split; [|done].
  intros n root Hn. destruct (Horigin n root Hn) as [Hold|?]; [|done].
  by apply elem_of_nil in Hold.
Qed.

Lemma initWatched_throws_from (requireResolve : string → result string)
    (dirname : string → string) (names : list string) (entries : list (string * string))
    (e : Error) :
  initWatched requireResolve dirname names entries = Throw e →
  ∃ n, n ∈ names ∧ (n ∉ objectPrototypeKeys)
       ∧ requireResolve (join plib n "package.json") = Throw e.
Proof.
  revert entries. induction names as [|name names IH]; intros entries; cbn [initWatched];
    [done|].
  destruct (inWatched name entries) eqn:Hin.
  - intros (n & ? & ?)%IH. exists n. split; [by right|done].
  - apply inWatched_false in Hin as [_ Hproto].
    destruct (requireResolve (join plib name "package.json")) as [p|e'] eqn:Hres.
    + intros (n & ? & ?)%IH. exists n. split; [by right|done].
    + intros [= ->]. exists name. split; [by left|done].
Qed.

Lemma initWatched_ok_resolved (requireResolve : string → result string)
    (dirname : string → string) (names : list string) (entries ws : list (string * string)) :
  initWatched requireResolve dirname names entries = Ok ws →
  ∀ n, n ∈ names → n ∉ objectPrototypeKeys → n ∉ entries.*1 →
       ∃ p, requireResolve (join plib n "package.json") = Ok p.
Proof.
  intros H n Hn Hproto Hfresh.
  destruct (initWatched_inv _ _ _ _ _ H) as (_ & Horigin & _ & Hall).
  apply Hall in Hn; [|done]. apply list_elem_of_fmap in Hn as ([n' root] & -> & Hin).
  destruct (Horigin n' root Hin) as [Hold|(_ & _ & p & Hp & _)]; [|by exists p].
  destruct Hfresh. apply list_elem_of_fmap. by exists (n', root).
Qed.

(** X15. A package that does not resolve aborts the start-up: the loop
    throws if and only if [require.resolve] throws for the [package.json] of
    some package name that is not an inherited property name, and the error
    thrown is one of these. *)
Theorem initWatched_unresolved (requireResolve : string → result string)
    (dirname : string → string) (names : list string) :
  ((∃ e, initWatched requireResolve dirname names [] = Throw e) ↔
   (∃ n e, n ∈ names ∧ (n ∉ objectPrototypeKeys)
           ∧ requireResolve (join plib n "package.json") = Throw e))
  ∧ (∀ e, initWatched requireResolve dirname names [] = Throw e →
       ∃ n, n ∈ names ∧ (n ∉ objectPrototypeKeys)
            ∧ requireResolve (join plib n "package.json") = Throw e).
Proof.
  split; [split|].
  - intros [e (n & ? & ? & ?)%initWatched_throws_from]. by exists n, e.
  - intros (n & e & Hn & Hproto & Hres).
    destruct (initWatched requireResolve dirname names []) as [ws|e'] eqn:H; [|by exists e'].
    destruct (initWatched_ok_resolved _ _ _ _ _ H n Hn Hproto) as [p Hp].
    + simpl. by intros ?%elem_of_nil.
    + congruence.
  - intros e. apply initWatched_throws_from.
Qed.



End More.

(** * The further properties on concrete inputs *)

Section MoreInstallation.
#[local] Existing Instance Scenario.config.
Import Scenario Bench.

Lemma ignored_unmatched_witness :
  cache_ok fresh
  ∧ resolve plib "/opt/lib/y.js" ≠ "/src/A"
  ∧ Js.indexOf (resolve plib "/opt/lib/y.js") "/src/A/" = -1
  ∧ (ignored "/opt/lib/y.js" fresh).1 = Ok true.
Proof.
  split; [apply cache_ok_boot|]. split; [discriminate|]. split; [vm_compute; reflexivity|].
  apply (ignored_unmatched "/opt/lib/y.js" fresh (cache_ok_boot _ _)).
  intros name rootPath Hin. cbn in Hin. apply list_elem_of_singleton in Hin.
  injection Hin as -> ->. split; [discriminate|vm_compute; reflexivity].
Defined.

Lemma ignored_cache_grows_witness :
  ignoreCache seen !! "/opt/lib/y.js" = Some true
  ∧ ignoreCache (ignored "/src/A/lib/x.js" seen).2 !! "/opt/lib/y.js" = Some true.
Proof.
  split; [vm_compute; reflexivity|].
  apply (proj1 (ignored_cache_grows "/src/A/lib/x.js" seen)).
  vm_compute. reflexivity.
Defined.

Lemma ignored_keeps_world_witness :
  statWatchers mirrored !! "/linked/A/lib/x.js"
  = Some {| interval := 500; listeners := [listenerX] |}
  ∧ ∃ sw', statWatchers (ignored "/src/A/lib/x2.js" mirrored).2 !! "/linked/A/lib/x.js"
           = Some sw'
      ∧ interval sw' = 500
      ∧ [listenerX] `prefix_of` listeners sw'.
Proof.
  split; [vm_compute; reflexivity|].
  apply (proj2 (proj2 (proj2 (proj2 (ignored_keeps_world "/src/A/lib/x2.js" mirrored))))
           "/linked/A/lib/x.js" {| interval := 500; listeners := [listenerX] |}).
  vm_compute. reflexivity.
Defined.

Lemma ignored_same_resolved_witness :
  resolve plib "/src/A/./lib//x.js" = resolve plib "/src/A/lib/x.js"
  ∧ ignored "/src/A/lib/x.js" fresh = (Ok false, mirrored)
  ∧ ignoreCache (set_disk ∅ mirrored) = ignoreCache mirrored
  ∧ ignored "/src/A/./lib//x.js" (set_disk ∅ mirrored) = (Ok false, set_disk ∅ mirrored).
Proof.
  split; [reflexivity|]. split; [vm_compute; reflexivity|]. split; [reflexivity|].
  apply (ignored_same_resolved "/src/A/lib/x.js" "/src/A/./lib//x.js" false fresh mirrored);
    vm_compute; reflexivity.
Defined.

Lemma ignored_directory_witness :
  ignoreCache fresh !! resolve plib "/src/A" = None
  ∧ firstMatch (resolve plib "/src/A") watched = Some ("A", "/src/A")
  ∧ (statSync (resolve plib "/src/A") fresh).1 = Ok {| isFile := false; nlink := 1 |}
  ∧ (ignored "/src/A" fresh).1 = Ok false
  ∧ timerCount (ignored "/src/A" fresh).2 = 0%nat.
Proof.
  do 3 (split; [vm_compute; reflexivity|]).
  rewrite (ignored_directory "/src/A" "A" "/src/A" {| isFile := false; nlink := 1 |} fresh)
    by (vm_compute; reflexivity).
  split; vm_compute; reflexivity.
Defined.

Lemma scanRoots_first_match_wins_witness :
  matchesRoot (cfg := nested) "/src/A/node_modules/B/lib/b.js" "/src/A/node_modules/B" = true
  ∧ scanRoots (cfg := nested) "/src/A/node_modules/B/lib/b.js"
      ([] ++ ("B", "/src/A/node_modules/B") :: [("A", "/src/A")]) fresh
    = scanRoots (cfg := nested) "/src/A/node_modules/B/lib/b.js"
        [("B", "/src/A/node_modules/B")] fresh.
Proof.
  split; [vm_compute; reflexivity|].
  apply (scanRoots_first_match_wins (cfg := nested)).
  - intros r Hr. by apply elem_of_nil in Hr.
  - vm_compute. reflexivity.
Defined.

Lemma maybeSync_registers_witness :
  (statSync "/src/A/lib/x.js" fresh).1 = Ok regular
  ∧ realpath (disk fresh) (join plib "/linked/A" "/lib/x.js") = Ok "/linked/A/lib/x.js"
  ∧ realpath (disk fresh) "/src/A/lib/x.js" = Ok "/src/A/lib/x.js"
  ∧ statWatchers fresh !! resolve plib "/linked/A/lib/x.js" = None
  ∧ (maybeSync "/src/A/lib/x.js" "A" "/lib/x.js" fresh).1 = Ok tt
  ∧ timerCount (maybeSync "/src/A/lib/x.js" "A" "/lib/x.js" fresh).2 = 1%nat.
Proof.
  do 4 (split; [vm_compute; reflexivity|]).
  destruct (maybeSync_registers "/src/A/lib/x.js" "A" "/lib/x.js" "/linked/A"
              "/linked/A/lib/x.js" "/src/A/lib/x.js" regular fresh)
    as (Hrun & _ & _ & _ & _ & Hreg);
    [vm_compute; reflexivity|reflexivity|vm_compute; reflexivity|vm_compute; reflexivity
    |vm_compute; reflexivity|discriminate|].
  split; [exact Hrun|].
  change (statWatchers fresh !! resolve plib "/linked/A/lib/x.js") with (@None StatWatcher) in Hreg.
  exact (proj2 Hreg).
Defined.

Lemma ignored_missing_source_throws_witness :
  (statSync (resolve plib "/src/A/lib/only.js") orphaned).1 = Ok regular
  ∧ realpath (disk orphaned) (join plib "/linked/A" "/lib/only.js") = Throw "ENOENT"
  ∧ ignored "/src/A/lib/only.js" orphaned = (Throw "ENOENT", orphaned).
Proof.
  do 2 (split; [vm_compute; reflexivity|]).
  apply (ignored_missing_source_throws "/src/A/lib/only.js" "A" "/src/A" "/linked/A" regular);
    vm_compute; reflexivity.
Defined.

Lemma mirror_after_tick_witness :
  disk fresh !! resolve plib "/linked/A/lib/x.js" = Some (File "new")
  ∧ (copySync "/linked/A/lib/x.js" (resolve plib "/src/A/lib/x.js")
       (ignored "/src/A/lib/x.js" fresh).2).1 = Ok tt
  ∧ (readFileSync (resolve plib "/src/A/lib/x.js")
       (syncListener {| source := "/linked/A/lib/x.js";
                        localPath := resolve plib "/src/A/lib/x.js" |}
          (Some regular) (ignored "/src/A/lib/x.js" fresh).2).2).1 = Ok "new".
Proof.
  do 2 (split; [vm_compute; reflexivity|]).
  apply (mirror_after_tick "/src/A/lib/x.js" "A" "/src/A" "/linked/A" "/linked/A/lib/x.js"
           "/src/A/lib/x.js" "new" regular regular fresh);
    try (vm_compute; reflexivity); discriminate.
Defined.


Lemma syncListener_tick_twice_witness :
  nlink regular ≠ 0
  ∧ (copySync (source listenerX) (localPath listenerX) fresh).1 = Ok tt
  ∧ inTree (resolve plib (localPath listenerX)) (resolve plib (source listenerX)) = false
  ∧ syncListener listenerX (Some regular) (syncListener listenerX (Some regular) fresh).2
    = (Ok tt, (syncListener listenerX (Some regular) fresh).2).
Proof.
  split; [discriminate|]. do 2 (split; [vm_compute; reflexivity|]).
  apply (syncListener_tick_twice listenerX regular fresh);
    [discriminate|vm_compute; reflexivity..].
Defined.

Lemma afterEmit_failure_witness :
  staticDir (frontEnd unbuilt) = Some "/srv/static"
  ∧ disk unbuilt !! resolve plib (buildDir (frontEnd unbuilt)) = None
  ∧ (afterEmit unbuilt).1 = Throw "ENOENT"
  ∧ _first (frontEnd (afterEmit unbuilt).2) = false
  ∧ disk (afterEmit unbuilt).2 = ∅.
Proof.
  do 2 (split; [vm_compute; reflexivity|]).
  destruct (afterEmit_failure "/srv/static" unbuilt eq_refl eq_refl) as [Hthrow Hafter].
  pose proof (Hthrow ltac:(vm_compute; reflexivity)) as H.
  split; [exact H|].
  destruct (Hafter "ENOENT" H) as (Hfirst & _ & Hdisk & _).
  split; [exact Hfirst|]. etrans; [exact Hdisk|]. vm_compute. reflexivity.
Defined.

Lemma afterEmit_twice_witness :
  staticDir (frontEnd published) = Some "/srv/static"
  ∧ (afterEmit published).1 = Ok tt
  ∧ inTree (resolve plib "/srv/static") (resolve plib (buildDir (frontEnd published))) = false
  ∧ afterEmit (afterEmit published).2 = (Ok tt, (afterEmit published).2).
Proof.
  do 3 (split; [vm_compute; reflexivity|]).
  apply (afterEmit_twice "/srv/static" published); vm_compute; reflexivity.
Defined.

Lemma watch_throws_on_failing_path_witness :
  filterM ignored ["/opt/lib/y.js"] fresh = (Ok ["/opt/lib/y.js"], seen)
  ∧ ignored "/src/A/lib/gone.js" seen = (Throw "ENOENT", seen)
  ∧ watch (filterWatchIgnorePlugin ignored plainWfs)
      (["/opt/lib/y.js"] ++ "/src/A/lib/gone.js" :: ["/src/A/lib/x.js"]) [] [] 0
      {| poll := Some 333; aggregateTimeout := None |} noteCallback (λ _ _, ret tt) fresh
    = (Throw "ENOENT", seen).
Proof.
  do 2 (split; [vm_compute; reflexivity|]).
  apply (watch_throws_on_failing_path _ ["/opt/lib/y.js"] ["/src/A/lib/x.js"]
           ["/opt/lib/y.js"] [] [] "/src/A/lib/gone.js" "ENOENT" 0 _ _ _ fresh seen seen);
    vm_compute; reflexivity.
Defined.

Lemma initWatched_entries_witness :
  initWatched requireResolve dirname ["A"; "toString"; "B"] []
  = Ok [("A", "/src/A"); ("B", "/src/B")]
  ∧ NoDup ["A"; "B"]
  ∧ "B" ∈ ["A"; "B"].
Proof.
  assert (initWatched requireResolve dirname ["A"; "toString"; "B"] []
          = Ok [("A", "/src/A"); ("B", "/src/B")]) as H by (vm_compute; reflexivity).
  split; [exact H|].
  destruct (initWatched_entries _ _ _ _ H) as (Hnd & _ & Hall).
  split; [exact Hnd|]. apply (Hall "B").
  - apply list_elem_of_In. simpl. tauto.
  - intros Hin%list_elem_of_In. simpl in Hin.
    repeat (destruct Hin as [Hin|Hin]; [discriminate|]). done.
Defined.

Lemma initWatched_unresolved_witness :
  requireResolve (join plib "C" "package.json") = Throw "MODULE_NOT_FOUND"
  ∧ ∃ e, initWatched requireResolve dirname ["A"; "C"] [] = Throw e.
Proof.
  split; [vm_compute; reflexivity|].
  apply (proj1 (initWatched_unresolved requireResolve dirname ["A"; "C"])).
  exists "C", "MODULE_NOT_FOUND". split; [apply list_elem_of_In; simpl; tauto|].
  split; [|vm_compute; reflexivity].
  intros Hin%list_elem_of_In. simpl in Hin.
  repeat (destruct Hin as [Hin|Hin]; [discriminate|]). done.
Defined.


End MoreInstallation.
